(** * Islands.py: the globe viewer's numeric core

    A shallow embedding of [src/Islands.py] (class [EarthViewerFrame]):
    the latitude/longitude projection of [generate_points_from_csv], the
    population normalisation of [compute_population_colors], the colour
    maps of [generate_color_scheme] and [hsv_to_rgb], the mouse handlers
    and the frame composition of [redraw].

    Numbers.  Python and numpy floats are modelled as real numbers with
    exact arithmetic; pixel coordinates and the fields of a Tk event are
    integers.  A decimal literal of the source ([0.33], [0.1]) is the
    decimal number it is written as.  Where numpy leaves the finite
    numbers, in [np.log1p] at or below -1, the normaliser is given a
    second time, over finite numbers, infinities and nan. *)

From Stdlib Require Import Reals Lra Lia ZArith List Bool String.
Import ListNotations.

#[local] Open Scope R_scope.

(** Comparisons of floats, as booleans. *)
Definition Rltb (a b : R) : bool := if Rlt_dec a b then true else false.
Definition Rleb (a b : R) : bool := if Rle_dec a b then true else false.
Definition Reqb (a b : R) : bool := if Req_dec_T a b then true else false.

(** ** Errors

    The operations of the source that can fail on numbers: a reduction
    of an empty array ([ndarray.min] raises ValueError), a division whose
    divisor is zero and a logarithm outside its domain (numpy signals
    both through its floating-point error state). *)

Inductive numeric_error : Type :=
| EmptyReduction
| ZeroDivisor
| InvalidValue.

Definition result (A : Type) : Type := (numeric_error + A)%type.

Definition ok {A : Type} (a : A) : result A := inr a.
Definition raise {A : Type} (e : numeric_error) : result A := inl e.

Definition bind {A B : Type} (m : result A) (k : A -> result B) : result B :=
  match m with
  | inl e => inl e
  | inr a => k a
  end.

Notation "x <- m ;; k" := (bind m (fun x => k))
  (at level 61, m at next level, right associativity).

Fixpoint mapM {A B : Type} (f : A -> result B) (l : list A) : result (list B) :=
  match l with
  | [] => ok []
  | a :: l' => b <- f a ;; bs <- mapM f l' ;; ok (b :: bs)
  end.

(** ** GeoProjector ([generate_points_from_csv], lines 173-201) *)

Definition point3 : Type := (R * R * R)%type.

(** [math.radians] *)
Definition radians (deg : R) : R := deg * PI / 180.

(** The body of the row loop, lines 192-197. *)
Definition project (lat lon radius : R) : point3 :=
  let theta := radians (90 - lat) in
  let phi := radians lon in
  let x := - radius * sin theta * cos phi in
  let y := radius * cos theta in
  let z := radius * sin theta * sin phi in
  (x, y, z).

(** A row after the [float] conversions: [None] stands for the
    ValueError or KeyError that makes the loop skip the row; [row_pop] is
    the population found by the column search (0 when none parses). *)
Record csv_row : Type := {
  row_lat : option R;
  row_lon : option R;
  row_pop : R
}.

Fixpoint generate_points_from_csv (rows : list csv_row) (radius : R)
  : list point3 * list R :=
  match rows with
  | [] => ([], [])
  | row :: rest =>
      let '(points, populations) := generate_points_from_csv rest radius in
      match row_lat row, row_lon row with
      | Some lat, Some lon =>
          (project lat lon radius :: points, row_pop row :: populations)
      | _, _ => (points, populations)
      end
  end.

Definition norm3 (p : point3) : R :=
  let '(x, y, z) := p in sqrt (x * x + y * y + z * z).

(** ** PopulationNormalizer ([compute_population_colors], lines 207-228) *)

(** [np.log1p] where its value is a finite number, that is above -1.
    At or below -1 numpy returns -inf or nan, with a RuntimeWarning, and
    the method goes on with them: [np_log1p] below gives those values.
    This rendering keeps the arrays to finite numbers, as the colour
    maps take them, and marks such an argument as InvalidValue. *)
Definition log1p (x : R) : result R :=
  if Rltb (-1) x then ok (ln (1 + x)) else raise InvalidValue.

(** [pop_values[pop_values > 0]] *)
Definition positive (t : R) : bool := Rltb 0 t.

(** [ndarray.min] and [ndarray.max] *)
Definition amin (l : list R) : result R :=
  match l with
  | [] => raise EmptyReduction
  | a :: l' => ok (fold_left Rmin l' a)
  end.

Definition amax (l : list R) : result R :=
  match l with
  | [] => raise EmptyReduction
  | a :: l' => ok (fold_left Rmax l' a)
  end.

(** Array division by a scalar. *)
Definition divide (a b : R) : result R :=
  if Reqb b 0 then raise ZeroDivisor else ok (a / b).

Definition zeros_like (l : list R) : list R := map (fun _ => 0) l.

(** Lines 208-212: the optional logarithmic scaling. *)
Definition pop_values (use_logarithmic : bool) (populations : list R)
  : result (list R) :=
  if use_logarithmic then mapM log1p populations else ok populations.

(** Lines 215-228, on the scaled values. *)
Definition normalize_values (values : list R) : result (list R) :=
  let valid_pops := filter positive values in
  if Nat.eqb (List.length valid_pops) 0 then ok (zeros_like values)
  else
    min_pop <- amin valid_pops ;;
    max_pop <- amax valid_pops ;;
    if Rltb min_pop max_pop then
      mapM (fun t => q <- divide (t - min_pop) (max_pop - min_pop) ;;
                     ok (Rmax 0 q)) values
    else ok (zeros_like values).

Definition normalized_pops (use_logarithmic : bool) (populations : list R)
  : result (list R) :=
  values <- pop_values use_logarithmic populations ;;
  normalize_values values.

(** The least and the greatest element of a list. *)
Definition is_min (l : list R) (m : R) : Prop :=
  In m l /\ forall x, In x l -> m <= x.

Definition is_max (l : list R) (m : R) : Prop :=
  In m l /\ forall x, In x l -> x <= m.

Definition in_unit (x : R) : Prop := 0 <= x <= 1.

(** ** ColormapEngine ([generate_color_scheme], [hsv_to_rgb]) *)

Definition rgba : Type := (R * R * R * R)%type.

(** Python's [%] on floats, for a positive modulus. *)
Definition fmod (a m : R) : R := a - m * IZR (Zfloor (a / m)).

(** Lines 315-335. *)
Definition hsv_to_rgb (h s v : R) : R * R * R :=
  let h := fmod h 360 in
  let c := v * s in
  let x := c * (1 - Rabs (fmod (h / 60) 2 - 1)) in
  let m := v - c in
  let '(r, g, b) :=
    if Rleb 0 h && Rltb h 60 then (c, x, 0)
    else if Rleb 60 h && Rltb h 120 then (x, c, 0)
    else if Rleb 120 h && Rltb h 180 then (0, c, x)
    else if Rleb 180 h && Rltb h 240 then (0, x, c)
    else if Rleb 240 h && Rltb h 300 then (x, 0, c)
    else (c, 0, x) in
  (r + m, g + m, b + m).

(** The loop bodies of lines 244-311, one per scheme. *)
Definition plasma (val : R) : rgba :=
  if Rltb val 0.25 then
    let t := val * 4 in (0.1 + 0.4 * t, 0.0, 0.3 + 0.4 * t, 0.8)
  else if Rltb val 0.5 then
    let t := (val - 0.25) * 4 in (0.5 + 0.3 * t, 0.1 * t, 0.7 - 0.2 * t, 0.9)
  else if Rltb val 0.75 then
    let t := (val - 0.5) * 4 in (0.8 + 0.2 * t, 0.1 + 0.4 * t, 0.5 - 0.5 * t, 1.0)
  else
    let t := (val - 0.75) * 4 in (1.0, 0.5 + 0.5 * t, 0.0, 1.0).

Definition viridis (val : R) : rgba :=
  if Rltb val 0.25 then
    let t := val * 4 in (0.3 * t, 0.0, 0.4 + 0.2 * t, 0.8)
  else if Rltb val 0.5 then
    let t := (val - 0.25) * 4 in (0.3 - 0.1 * t, 0.2 * t, 0.6 + 0.2 * t, 0.9)
  else if Rltb val 0.75 then
    let t := (val - 0.5) * 4 in (0.2 * t, 0.2 + 0.6 * t, 0.8 - 0.4 * t, 1.0)
  else
    let t := (val - 0.75) * 4 in (0.2 + 0.8 * t, 0.8 + 0.2 * t, 0.4 - 0.4 * t, 1.0).

Definition hot (val : R) : rgba :=
  if Rltb val 0.33 then
    let t := val * 3 in (t, 0.0, 0.0, 0.7 + 0.3 * t)
  else if Rltb val 0.66 then
    let t := (val - 0.33) * 3 in (1.0, t, 0.0, 1.0)
  else
    let t := (val - 0.66) * 3 in (1.0, 1.0, t, 1.0).

Definition cool (val : R) : rgba := (val, 1.0 - val, 1.0, 0.8).

Definition rainbow (val : R) : rgba :=
  let hue := val * 300 in
  let '(r, g, b) := hsv_to_rgb hue 1.0 1.0 in
  (r, g, b, 0.9).

Definition green_red (val : R) : rgba := (val, 1.0 - val, 0.0, 0.8).

(** The [if]/[elif] chain on [self.color_scheme]; any other string takes
    the final [else]. *)
Definition color_of (color_scheme : string) : R -> rgba :=
  if String.eqb color_scheme "plasma" then plasma
  else if String.eqb color_scheme "viridis" then viridis
  else if String.eqb color_scheme "hot" then hot
  else if String.eqb color_scheme "cool" then cool
  else if String.eqb color_scheme "rainbow" then rainbow
  else green_red.

Definition generate_color_scheme (color_scheme : string)
  (normalized_values : list R) : list rgba :=
  map (color_of color_scheme) normalized_values.

Definition rgba_in_unit (c : rgba) : Prop :=
  let '(r, g, b, a) := c in
  in_unit r /\ in_unit g /\ in_unit b /\ in_unit a.

Definition alpha (c : rgba) : R := let '(_, _, _, a) := c in a.

(** ** The OpenGL context

    The part of the fixed-function pipeline that [redraw] drives: the
    modelview matrix and its stack, the texturing switch, the client
    arrays, and the draws issued since the last [glClear], each with the
    modelview matrix it was issued under. *)

Definition vec4 : Type := (R * R * R * R)%type.

(** A 4x4 matrix, by rows. *)
Definition mat4 : Type := (vec4 * vec4 * vec4 * vec4)%type.

Definition mat_identity : mat4 :=
  ((1, 0, 0, 0), (0, 1, 0, 0), (0, 0, 1, 0), (0, 0, 0, 1)).

Definition dot4 (u v : vec4) : R :=
  let '(u0, u1, u2, u3) := u in
  let '(v0, v1, v2, v3) := v in
  u0 * v0 + u1 * v1 + u2 * v2 + u3 * v3.

Definition col0 (m : mat4) : vec4 :=
  let '((a, _, _, _), (b, _, _, _), (c, _, _, _), (d, _, _, _)) := m in (a, b, c, d).
Definition col1 (m : mat4) : vec4 :=
  let '((_, a, _, _), (_, b, _, _), (_, c, _, _), (_, d, _, _)) := m in (a, b, c, d).
Definition col2 (m : mat4) : vec4 :=
  let '((_, _, a, _), (_, _, b, _), (_, _, c, _), (_, _, d, _)) := m in (a, b, c, d).
Definition col3 (m : mat4) : vec4 :=
  let '((_, _, _, a), (_, _, _, b), (_, _, _, c), (_, _, _, d)) := m in (a, b, c, d).

Definition row_mul (r : vec4) (n : mat4) : vec4 :=
  (dot4 r (col0 n), dot4 r (col1 n), dot4 r (col2 n), dot4 r (col3 n)).

Definition mmul (m n : mat4) : mat4 :=
  let '(r0, r1, r2, r3) := m in
  (row_mul r0 n, row_mul r1 n, row_mul r2 n, row_mul r3 n).

(** The matrix of [glTranslatef x y z]. *)
Definition translation (x y z : R) : mat4 :=
  ((1, 0, 0, x), (0, 1, 0, y), (0, 0, 1, z), (0, 0, 0, 1)).

(** The matrix of [glRotatef angle x y z], [angle] in degrees, for an
    axis of length one (every call of the source passes a unit axis). *)
Definition rotation (angle x y z : R) : mat4 :=
  let c := cos (radians angle) in
  let s := sin (radians angle) in
  ((x * x * (1 - c) + c, x * y * (1 - c) - z * s, x * z * (1 - c) + y * s, 0),
   (y * x * (1 - c) + z * s, y * y * (1 - c) + c, y * z * (1 - c) - x * s, 0),
   (x * z * (1 - c) - y * s, y * z * (1 - c) + x * s, z * z * (1 - c) + c, 0),
   (0, 0, 0, 1)).

Inductive draw_call : Type :=
| SphereDrawn (transform : mat4) (radius : R) (textured : bool)
| PointsDrawn (transform : mat4) (vertices : option (list point3))
    (colors : option (list rgba)) (count : nat) (textured : bool).

Record gl_state : Type := {
  modelview : mat4;
  matrix_stack : list mat4;
  texture_2d : bool;
  vertex_array : bool;
  color_array : bool;
  vertex_pointer : option (list point3);
  color_pointer : option (list rgba);
  framebuffer : list draw_call
}.

Definition with_modelview (g : gl_state) (m : mat4) (st : list mat4) : gl_state :=
  {| modelview := m; matrix_stack := st; texture_2d := texture_2d g;
     vertex_array := vertex_array g; color_array := color_array g;
     vertex_pointer := vertex_pointer g; color_pointer := color_pointer g;
     framebuffer := framebuffer g |}.

Definition with_framebuffer (g : gl_state) (fb : list draw_call) : gl_state :=
  {| modelview := modelview g; matrix_stack := matrix_stack g;
     texture_2d := texture_2d g;
     vertex_array := vertex_array g; color_array := color_array g;
     vertex_pointer := vertex_pointer g; color_pointer := color_pointer g;
     framebuffer := fb |}.

Definition with_texture_2d (g : gl_state) (b : bool) : gl_state :=
  {| modelview := modelview g; matrix_stack := matrix_stack g;
     texture_2d := b;
     vertex_array := vertex_array g; color_array := color_array g;
     vertex_pointer := vertex_pointer g; color_pointer := color_pointer g;
     framebuffer := framebuffer g |}.

Definition with_arrays (g : gl_state) (va ca : bool)
  (vp : option (list point3)) (cp : option (list rgba)) : gl_state :=
  {| modelview := modelview g; matrix_stack := matrix_stack g;
     texture_2d := texture_2d g;
     vertex_array := va; color_array := ca;
     vertex_pointer := vp; color_pointer := cp;
     framebuffer := framebuffer g |}.

Definition glLoadIdentity (g : gl_state) : gl_state :=
  with_modelview g mat_identity (matrix_stack g).

Definition glClear (g : gl_state) : gl_state := with_framebuffer g [].

Definition glTranslatef (x y z : R) (g : gl_state) : gl_state :=
  with_modelview g (mmul (modelview g) (translation x y z)) (matrix_stack g).

Definition glRotatef (angle x y z : R) (g : gl_state) : gl_state :=
  with_modelview g (mmul (modelview g) (rotation angle x y z)) (matrix_stack g).

Definition glPushMatrix (g : gl_state) : gl_state :=
  with_modelview g (modelview g) (modelview g :: matrix_stack g).

(** On an empty stack OpenGL flags an underflow and changes nothing. *)
Definition glPopMatrix (g : gl_state) : gl_state :=
  match matrix_stack g with
  | [] => g
  | m :: st => with_modelview g m st
  end.

Definition glEnable_TEXTURE_2D (g : gl_state) : gl_state := with_texture_2d g true.
Definition glDisable_TEXTURE_2D (g : gl_state) : gl_state := with_texture_2d g false.

Definition glEnableClientState_VERTEX_ARRAY (g : gl_state) : gl_state :=
  with_arrays g true (color_array g) (vertex_pointer g) (color_pointer g).
Definition glEnableClientState_COLOR_ARRAY (g : gl_state) : gl_state :=
  with_arrays g (vertex_array g) true (vertex_pointer g) (color_pointer g).
Definition glDisableClientState_VERTEX_ARRAY (g : gl_state) : gl_state :=
  with_arrays g false (color_array g) (vertex_pointer g) (color_pointer g).
Definition glDisableClientState_COLOR_ARRAY (g : gl_state) : gl_state :=
  with_arrays g (vertex_array g) false (vertex_pointer g) (color_pointer g).
Definition glVertexPointer (vp : option (list point3)) (g : gl_state) : gl_state :=
  with_arrays g (vertex_array g) (color_array g) vp (color_pointer g).
Definition glColorPointer (cp : option (list rgba)) (g : gl_state) : gl_state :=
  with_arrays g (vertex_array g) (color_array g) (vertex_pointer g) cp.

(** [glDrawArrays(GL_POINTS, 0, count)] *)
Definition glDrawArrays_POINTS (count : nat) (g : gl_state) : gl_state :=
  with_framebuffer g
    (framebuffer g ++
     [PointsDrawn (modelview g) (vertex_pointer g) (color_pointer g) count
        (texture_2d g)]).

(** [gluSphere] *)
Definition gluSphere (radius : R) (g : gl_state) : gl_state :=
  with_framebuffer g
    (framebuffer g ++ [SphereDrawn (modelview g) radius (texture_2d g)]).

(** The state [initgl] leaves: identity modelview, texturing on. *)
Definition initgl : gl_state :=
  {| modelview := mat_identity; matrix_stack := [];
     texture_2d := true;
     vertex_array := false; color_array := false;
     vertex_pointer := None; color_pointer := None;
     framebuffer := [] |}.

(** ** The frame ([EarthViewerFrame])

    The instance fields of lines 78-93, the [populations] attribute
    ([None] while it does not exist), the OpenGL context the frame draws
    into and the lines it has printed. *)

Inductive output_line : Type :=
| ComputingColors (n : nat)
| PopulationRange (lo hi : R)
| LogScaledRange (lo hi : R)
| CsvNotFound
| ErrorOccurred (e : numeric_error).

Record EarthViewerFrame : Type := {
  points_vbo : option (list point3);
  colors_vbo : option (list rgba);
  point_count : nat;
  rotation_angle_x : R;
  rotation_angle_y : R;
  sphere_rotation_x : R;
  sphere_rotation_y : R;
  sphere_rotation_z : R;
  last_mouse_pos : Z * Z;
  is_dragging : bool;
  zoom : R;
  color_scheme : string;
  use_logarithmic : bool;
  alpha_blending : bool;
  populations : option (list R);
  gl : gl_state;
  stdout : list output_line
}.

Definition set_colors_vbo (v : option (list rgba)) (f : EarthViewerFrame)
  : EarthViewerFrame :=
  {| points_vbo := points_vbo f; colors_vbo := v;
     point_count := point_count f; rotation_angle_x := rotation_angle_x f;
     rotation_angle_y := rotation_angle_y f;
     sphere_rotation_x := sphere_rotation_x f;
     sphere_rotation_y := sphere_rotation_y f;
     sphere_rotation_z := sphere_rotation_z f;
     last_mouse_pos := last_mouse_pos f; is_dragging := is_dragging f;
     zoom := zoom f; color_scheme := color_scheme f;
     use_logarithmic := use_logarithmic f;
     alpha_blending := alpha_blending f; populations := populations f;
     gl := gl f; stdout := stdout f |}.

Definition set_rotation_angle_x (v : R) (f : EarthViewerFrame)
  : EarthViewerFrame :=
  {| points_vbo := points_vbo f; colors_vbo := colors_vbo f;
     point_count := point_count f; rotation_angle_x := v;
     rotation_angle_y := rotation_angle_y f;
     sphere_rotation_x := sphere_rotation_x f;
     sphere_rotation_y := sphere_rotation_y f;
     sphere_rotation_z := sphere_rotation_z f;
     last_mouse_pos := last_mouse_pos f; is_dragging := is_dragging f;
     zoom := zoom f; color_scheme := color_scheme f;
     use_logarithmic := use_logarithmic f;
     alpha_blending := alpha_blending f; populations := populations f;
     gl := gl f; stdout := stdout f |}.

Definition set_rotation_angle_y (v : R) (f : EarthViewerFrame)
  : EarthViewerFrame :=
  {| points_vbo := points_vbo f; colors_vbo := colors_vbo f;
     point_count := point_count f; rotation_angle_x := rotation_angle_x f;
     rotation_angle_y := v; sphere_rotation_x := sphere_rotation_x f;
     sphere_rotation_y := sphere_rotation_y f;
     sphere_rotation_z := sphere_rotation_z f;
     last_mouse_pos := last_mouse_pos f; is_dragging := is_dragging f;
     zoom := zoom f; color_scheme := color_scheme f;
     use_logarithmic := use_logarithmic f;
     alpha_blending := alpha_blending f; populations := populations f;
     gl := gl f; stdout := stdout f |}.

Definition set_sphere_rotation_x (v : R) (f : EarthViewerFrame)
  : EarthViewerFrame :=
  {| points_vbo := points_vbo f; colors_vbo := colors_vbo f;
     point_count := point_count f; rotation_angle_x := rotation_angle_x f;
     rotation_angle_y := rotation_angle_y f; sphere_rotation_x := v;
     sphere_rotation_y := sphere_rotation_y f;
     sphere_rotation_z := sphere_rotation_z f;
     last_mouse_pos := last_mouse_pos f; is_dragging := is_dragging f;
     zoom := zoom f; color_scheme := color_scheme f;
     use_logarithmic := use_logarithmic f;
     alpha_blending := alpha_blending f; populations := populations f;
     gl := gl f; stdout := stdout f |}.

Definition set_sphere_rotation_y (v : R) (f : EarthViewerFrame)
  : EarthViewerFrame :=
  {| points_vbo := points_vbo f; colors_vbo := colors_vbo f;
     point_count := point_count f; rotation_angle_x := rotation_angle_x f;
     rotation_angle_y := rotation_angle_y f;
     sphere_rotation_x := sphere_rotation_x f; sphere_rotation_y := v;
     sphere_rotation_z := sphere_rotation_z f;
     last_mouse_pos := last_mouse_pos f; is_dragging := is_dragging f;
     zoom := zoom f; color_scheme := color_scheme f;
     use_logarithmic := use_logarithmic f;
     alpha_blending := alpha_blending f; populations := populations f;
     gl := gl f; stdout := stdout f |}.

Definition set_sphere_rotation_z (v : R) (f : EarthViewerFrame)
  : EarthViewerFrame :=
  {| points_vbo := points_vbo f; colors_vbo := colors_vbo f;
     point_count := point_count f; rotation_angle_x := rotation_angle_x f;
     rotation_angle_y := rotation_angle_y f;
     sphere_rotation_x := sphere_rotation_x f;
     sphere_rotation_y := sphere_rotation_y f; sphere_rotation_z := v;
     last_mouse_pos := last_mouse_pos f; is_dragging := is_dragging f;
     zoom := zoom f; color_scheme := color_scheme f;
     use_logarithmic := use_logarithmic f;
     alpha_blending := alpha_blending f; populations := populations f;
     gl := gl f; stdout := stdout f |}.

Definition set_last_mouse_pos (v : Z * Z) (f : EarthViewerFrame)
  : EarthViewerFrame :=
  {| points_vbo := points_vbo f; colors_vbo := colors_vbo f;
     point_count := point_count f; rotation_angle_x := rotation_angle_x f;
     rotation_angle_y := rotation_angle_y f;
     sphere_rotation_x := sphere_rotation_x f;
     sphere_rotation_y := sphere_rotation_y f;
     sphere_rotation_z := sphere_rotation_z f; last_mouse_pos := v;
     is_dragging := is_dragging f; zoom := zoom f;
     color_scheme := color_scheme f; use_logarithmic := use_logarithmic f;
     alpha_blending := alpha_blending f; populations := populations f;
     gl := gl f; stdout := stdout f |}.

Definition set_is_dragging (v : bool) (f : EarthViewerFrame)
  : EarthViewerFrame :=
  {| points_vbo := points_vbo f; colors_vbo := colors_vbo f;
     point_count := point_count f; rotation_angle_x := rotation_angle_x f;
     rotation_angle_y := rotation_angle_y f;
     sphere_rotation_x := sphere_rotation_x f;
     sphere_rotation_y := sphere_rotation_y f;
     sphere_rotation_z := sphere_rotation_z f;
     last_mouse_pos := last_mouse_pos f; is_dragging := v; zoom := zoom f;
     color_scheme := color_scheme f; use_logarithmic := use_logarithmic f;
     alpha_blending := alpha_blending f; populations := populations f;
     gl := gl f; stdout := stdout f |}.

Definition set_zoom (v : R) (f : EarthViewerFrame)
  : EarthViewerFrame :=
  {| points_vbo := points_vbo f; colors_vbo := colors_vbo f;
     point_count := point_count f; rotation_angle_x := rotation_angle_x f;
     rotation_angle_y := rotation_angle_y f;
     sphere_rotation_x := sphere_rotation_x f;
     sphere_rotation_y := sphere_rotation_y f;
     sphere_rotation_z := sphere_rotation_z f;
     last_mouse_pos := last_mouse_pos f; is_dragging := is_dragging f;
     zoom := v; color_scheme := color_scheme f;
     use_logarithmic := use_logarithmic f;
     alpha_blending := alpha_blending f; populations := populations f;
     gl := gl f; stdout := stdout f |}.

Definition set_color_scheme (v : string) (f : EarthViewerFrame)
  : EarthViewerFrame :=
  {| points_vbo := points_vbo f; colors_vbo := colors_vbo f;
     point_count := point_count f; rotation_angle_x := rotation_angle_x f;
     rotation_angle_y := rotation_angle_y f;
     sphere_rotation_x := sphere_rotation_x f;
     sphere_rotation_y := sphere_rotation_y f;
     sphere_rotation_z := sphere_rotation_z f;
     last_mouse_pos := last_mouse_pos f; is_dragging := is_dragging f;
     zoom := zoom f; color_scheme := v;
     use_logarithmic := use_logarithmic f;
     alpha_blending := alpha_blending f; populations := populations f;
     gl := gl f; stdout := stdout f |}.

Definition set_use_logarithmic (v : bool) (f : EarthViewerFrame)
  : EarthViewerFrame :=
  {| points_vbo := points_vbo f; colors_vbo := colors_vbo f;
     point_count := point_count f; rotation_angle_x := rotation_angle_x f;
     rotation_angle_y := rotation_angle_y f;
     sphere_rotation_x := sphere_rotation_x f;
     sphere_rotation_y := sphere_rotation_y f;
     sphere_rotation_z := sphere_rotation_z f;
     last_mouse_pos := last_mouse_pos f; is_dragging := is_dragging f;
     zoom := zoom f; color_scheme := color_scheme f; use_logarithmic := v;
     alpha_blending := alpha_blending f; populations := populations f;
     gl := gl f; stdout := stdout f |}.

Definition set_gl (v : gl_state) (f : EarthViewerFrame)
  : EarthViewerFrame :=
  {| points_vbo := points_vbo f; colors_vbo := colors_vbo f;
     point_count := point_count f; rotation_angle_x := rotation_angle_x f;
     rotation_angle_y := rotation_angle_y f;
     sphere_rotation_x := sphere_rotation_x f;
     sphere_rotation_y := sphere_rotation_y f;
     sphere_rotation_z := sphere_rotation_z f;
     last_mouse_pos := last_mouse_pos f; is_dragging := is_dragging f;
     zoom := zoom f; color_scheme := color_scheme f;
     use_logarithmic := use_logarithmic f;
     alpha_blending := alpha_blending f; populations := populations f;
     gl := v; stdout := stdout f |}.

Definition set_stdout (v : list output_line) (f : EarthViewerFrame)
  : EarthViewerFrame :=
  {| points_vbo := points_vbo f; colors_vbo := colors_vbo f;
     point_count := point_count f; rotation_angle_x := rotation_angle_x f;
     rotation_angle_y := rotation_angle_y f;
     sphere_rotation_x := sphere_rotation_x f;
     sphere_rotation_y := sphere_rotation_y f;
     sphere_rotation_z := sphere_rotation_z f;
     last_mouse_pos := last_mouse_pos f; is_dragging := is_dragging f;
     zoom := zoom f; color_scheme := color_scheme f;
     use_logarithmic := use_logarithmic f;
     alpha_blending := alpha_blending f; populations := populations f;
     gl := gl f; stdout := v |}.

(** Methods that print, mutate the frame or fail: a state transformer
    that keeps the frame reached when an exception leaves the method. *)
Definition action (A : Type) : Type :=
  EarthViewerFrame -> EarthViewerFrame * result A.

Definition ret {A : Type} (a : A) : action A := fun f => (f, ok a).

Definition abind {A B : Type} (m : action A) (k : A -> action B) : action B :=
  fun f =>
    let '(f1, r) := m f in
    match r with
    | inl e => (f1, inl e)
    | inr a => k a f1
    end.

Notation "x <-- m ;; k" := (abind m (fun x => k))
  (at level 61, m at next level, right associativity).

Definition lift {A : Type} (r : result A) : action A := fun f => (f, r).
Definition gets {A : Type} (p : EarthViewerFrame -> A) : action A :=
  fun f => (f, ok (p f)).
Definition modify (u : EarthViewerFrame -> EarthViewerFrame) : action unit :=
  fun f => (u f, ok tt).
Definition print (line : output_line) : action unit :=
  modify (fun f => set_stdout (stdout f ++ [line]) f).

(** Lines 203-237, the scaled values being finite numbers (see
    [log1p]). *)
Definition compute_population_colors (populations : list R)
  : action (list rgba) :=
  _ <-- print (ComputingColors (List.length populations)) ;;
  use_log <-- gets use_logarithmic ;;
  values <-- lift (pop_values use_log populations) ;;
  normalized <-- lift (normalize_values values) ;;
  scheme <-- gets color_scheme ;;
  let colors := generate_color_scheme scheme normalized in
  lo <-- lift (amin populations) ;;
  hi <-- lift (amax populations) ;;
  _ <-- print (PopulationRange lo hi) ;;
  _ <-- (if use_log then
           lo' <-- lift (amin values) ;;
           hi' <-- lift (amax values) ;;
           print (LogScaledRange lo' hi')
         else ret tt) ;;
  ret colors.

(** Lines 348-353. *)
Definition draw_textured_sphere (radius : R) (g : gl_state) : gl_state :=
  gluSphere radius g.

(** Lines 142-171, as calls on the frame's context. *)
Definition redraw_gl (f : EarthViewerFrame) (g : gl_state) : gl_state :=
  let g := glLoadIdentity g in
  let g := glClear g in
  let g := glTranslatef 0.0 0.0 (zoom f) g in
  let g := glRotatef (rotation_angle_x f) 1 0 0 g in
  let g := glRotatef (rotation_angle_y f) 0 1 0 g in
  let g := glPushMatrix g in
  let g := glRotatef (sphere_rotation_x f) 1 0 0 g in
  let g := glRotatef (sphere_rotation_y f) 0 1 0 g in
  let g := glRotatef (sphere_rotation_z f) 0 0 1 g in
  let g := draw_textured_sphere 2.5 g in
  let g := glPopMatrix g in
  match points_vbo f with
  | Some _ =>
      if Nat.ltb 0 (point_count f) then
        let g := glDisable_TEXTURE_2D g in
        let g := glEnableClientState_VERTEX_ARRAY g in
        let g := glEnableClientState_COLOR_ARRAY g in
        let g := glVertexPointer (points_vbo f) g in
        let g := glColorPointer (colors_vbo f) g in
        let g := glDrawArrays_POINTS (point_count f) g in
        let g := glDisableClientState_VERTEX_ARRAY g in
        let g := glDisableClientState_COLOR_ARRAY g in
        glEnable_TEXTURE_2D g
      else g
  | None => g
  end.

Definition redraw : action unit :=
  modify (fun f => set_gl (redraw_gl f (gl f)) f).

(** Lines 337-346. *)
Definition update_heatmap_settings (scheme : option string)
  (logarithmic : option bool) : action unit :=
  _ <-- (match scheme with
         | Some s => modify (set_color_scheme s)
         | None => ret tt
         end) ;;
  _ <-- (match logarithmic with
         | Some b => modify (set_use_logarithmic b)
         | None => ret tt
         end) ;;
  pops <-- gets populations ;;
  match pops with
  | Some p =>
      colors <-- compute_population_colors p ;;
      _ <-- modify (set_colors_vbo (Some colors)) ;;
      redraw
  | None => ret tt
  end.

(** ** Mouse handlers (lines 370-397) *)

(** A Tk event: pointer position, button number ([None] for the [??]
    of an event without a button) and wheel delta. *)
Record event : Type := {
  ev_x : Z;
  ev_y : Z;
  ev_num : option Z;
  ev_delta : Z
}.

Definition on_mouse_press (ev : event) (f : EarthViewerFrame) : EarthViewerFrame :=
  let f := set_is_dragging true f in
  set_last_mouse_pos (ev_x ev, ev_y ev) f.

Definition on_mouse_release (ev : event) (f : EarthViewerFrame) : EarthViewerFrame :=
  set_is_dragging false f.

Definition on_mouse_drag (ev : event) (f : EarthViewerFrame) : EarthViewerFrame :=
  if is_dragging f then
    let dx := (ev_x ev - fst (last_mouse_pos f))%Z in
    let dy := (ev_y ev - snd (last_mouse_pos f))%Z in
    let f := set_rotation_angle_y (rotation_angle_y f + IZR dx * 0.5) f in
    let f := set_rotation_angle_x (rotation_angle_x f + IZR dy * 0.5) f in
    set_last_mouse_pos (ev_x ev, ev_y ev) f
  else f.

Definition num_is (ev : event) (n : Z) : bool :=
  match ev_num ev with
  | Some k => Z.eqb k n
  | None => false
  end.

Definition on_mouse_wheel (ev : event) (f : EarthViewerFrame) : EarthViewerFrame :=
  let zoom_increment := 0.1 in
  let f :=
    if num_is ev 5 || Z.eqb (ev_delta ev) (-120) then
      set_zoom (zoom f - zoom_increment) f
    else if num_is ev 4 || Z.eqb (ev_delta ev) 120 then
      set_zoom (zoom f + zoom_increment) f
    else f in
  set_zoom (Rmax (Rmin (zoom f) (-1.0)) (-50.0)) f.

(** The slider callback of lines 447-451. *)
Definition update_sphere_rotation (x y z : R) : action unit :=
  _ <-- modify (set_sphere_rotation_x x) ;;
  _ <-- modify (set_sphere_rotation_y y) ;;
  _ <-- modify (set_sphere_rotation_z z) ;;
  redraw.

(** ** Construction (lines 76-107)

    [csv] is the content of the data file, [None] when it cannot be
    opened.  The two [except] clauses print and let construction go on. *)
Definition new_frame : EarthViewerFrame :=
  {| points_vbo := None; colors_vbo := None; point_count := 0;
     rotation_angle_x := 0; rotation_angle_y := 0;
     sphere_rotation_x := 90; sphere_rotation_y := 0; sphere_rotation_z := 270;
     last_mouse_pos := (0%Z, 0%Z); is_dragging := false;
     zoom := -8;
     color_scheme := "plasma"; use_logarithmic := true; alpha_blending := true;
     populations := None;
     gl := initgl; stdout := [] |}.

Definition load_points (points : list point3) (pops : list R)
  (f : EarthViewerFrame) : EarthViewerFrame :=
  {| points_vbo := Some points; colors_vbo := colors_vbo f;
     point_count := List.length points;
     rotation_angle_x := rotation_angle_x f; rotation_angle_y := rotation_angle_y f;
     sphere_rotation_x := sphere_rotation_x f;
     sphere_rotation_y := sphere_rotation_y f;
     sphere_rotation_z := sphere_rotation_z f;
     last_mouse_pos := last_mouse_pos f; is_dragging := is_dragging f;
     zoom := zoom f;
     color_scheme := color_scheme f; use_logarithmic := use_logarithmic f;
     alpha_blending := alpha_blending f;
     populations := Some pops;
     gl := gl f; stdout := stdout f |}.

Definition init (csv : option (list csv_row)) : EarthViewerFrame :=
  match csv with
  | None => fst (print CsvNotFound new_frame)
  | Some rows =>
      let '(points_list, populations_list) := generate_points_from_csv rows 2.5 in
      match points_list with
      | [] => new_frame
      | _ :: _ =>
          let f := load_points points_list populations_list new_frame in
          match compute_population_colors populations_list f with
          | (f1, inr colors) => set_colors_vbo (Some colors) f1
          | (f1, inl e) => fst (print (ErrorOccurred e) f1)
          end
      end
  end.

(** The bindings of lines 110-115: which handler each Tk event runs. *)
Inductive ui_event : Type :=
| ButtonPress1 (ev : event)
| ButtonRelease1 (ev : event)
| B1Motion (ev : event)
| MouseWheel (ev : event).

Definition dispatch (f : EarthViewerFrame) (e : ui_event) : EarthViewerFrame :=
  match e with
  | ButtonPress1 ev => on_mouse_press ev f
  | ButtonRelease1 ev => on_mouse_release ev f
  | B1Motion ev => on_mouse_drag ev f
  | MouseWheel ev => on_mouse_wheel ev f
  end.

Definition run (events : list ui_event) (f : EarthViewerFrame) : EarthViewerFrame :=
  fold_left dispatch events f.

(** ** Reading a drawn frame *)

(** The modelview matrix the sphere, and the point cloud, was drawn
    under. *)
Fixpoint sphere_transform_of (fb : list draw_call) : option mat4 :=
  match fb with
  | [] => None
  | SphereDrawn m _ _ :: _ => Some m
  | PointsDrawn _ _ _ _ _ :: rest => sphere_transform_of rest
  end.

Fixpoint points_transform_of (fb : list draw_call) : option mat4 :=
  match fb with
  | [] => None
  | PointsDrawn m _ _ _ _ :: _ => Some m
  | SphereDrawn _ _ _ :: rest => points_transform_of rest
  end.

(** The shared prefix: zoom translation, then cloud rotation X, then Y. *)
Definition cloud_transform (zoom rotation_angle_x rotation_angle_y : R) : mat4 :=
  mmul (mmul (mmul mat_identity (translation 0.0 0.0 zoom))
             (rotation rotation_angle_x 1 0 0))
       (rotation rotation_angle_y 0 1 0).

(** The sphere's local rotation: X, then Y, then Z, on top of a prefix. *)
Definition with_sphere_rotation (prefix : mat4) (x y z : R) : mat4 :=
  mmul (mmul (mmul prefix (rotation x 1 0 0)) (rotation y 0 1 0))
       (rotation z 0 0 1).

Definition has_points (f : EarthViewerFrame) : bool :=
  match points_vbo f with
  | Some _ => Nat.ltb 0 (point_count f)
  | None => false
  end.

(** ** Reading the data file (lines 176-200)

    [csv.DictReader] gives each row as a dict from the header's field
    names to strings; a field missing at the end of a short line has the
    value [None].  A row is kept here as an association list, the first
    binding of a key being the dict's value. *)

Definition raw_row : Type := list (string * option string).

Fixpoint row_get (key : string) (row : raw_row) : option (option string) :=
  match row with
  | [] => None
  | (k, v) :: rest => if String.eqb k key then Some v else row_get key rest
  end.

(** What became of a row: appended, skipped by the [except] clause, or
    left by a TypeError, which the clause does not catch. *)
Inductive field_result : Type :=
| FieldValue (x : R)
| FieldSkipped
| FieldTypeError.

Definition population_columns : list string :=
  ["Population"; "population"; "POPULATION"; "Pop"; "pop"]%string.

Definition nonempty (s : string) : bool := negb (String.eqb s "").

Section Ingestion.

(** Python's [float] on a string; [None] is its ValueError. *)
Variable float_of_string : string -> option R.

(** [float(row[key])] *)
Definition float_field (key : string) (row : raw_row) : field_result :=
  match row_get key row with
  | None => FieldSkipped
  | Some None => FieldTypeError
  | Some (Some s) =>
      match float_of_string s with
      | Some x => FieldValue x
      | None => FieldSkipped
      end
  end.

(** Lines 183-190: the search over the population columns. *)
Fixpoint find_population (columns : list string) (row : raw_row) : R :=
  match columns with
  | [] => 0
  | pop_col :: rest =>
      match row_get pop_col row with
      | Some (Some s) =>
          if nonempty s then
            match float_of_string s with
            | Some pop => pop
            | None => find_population rest row
            end
          else find_population rest row
      | _ => find_population rest row
      end
  end.

(** Lines 179-200 up to the projection: [None] when the row raises
    TypeError, otherwise the row as [generate_points_from_csv] takes
    it; the population is looked for only once both coordinates are
    read. *)
Definition parse_row (row : raw_row) : option csv_row :=
  match float_field "Latitude" row with
  | FieldTypeError => None
  | FieldSkipped => Some {| row_lat := None; row_lon := None; row_pop := 0 |}
  | FieldValue lat =>
      match float_field "Longitude" row with
      | FieldTypeError => None
      | FieldSkipped =>
          Some {| row_lat := Some lat; row_lon := None; row_pop := 0 |}
      | FieldValue lon =>
          Some {| row_lat := Some lat; row_lon := Some lon;
                  row_pop := find_population population_columns row |}
      end
  end.

Fixpoint parse_rows (rows : list raw_row) : option (list csv_row) :=
  match rows with
  | [] => Some []
  | row :: rest =>
      match parse_row row with
      | None => None
      | Some r =>
          match parse_rows rest with
          | None => None
          | Some rs => Some (r :: rs)
          end
      end
  end.

(** The whole method on the rows of the file; [None] is the TypeError
    leaving it. *)
Definition generate_points_from_rows (rows : list raw_row) (radius : R)
  : option (list point3 * list R) :=
  match parse_rows rows with
  | None => None
  | Some rs => Some (generate_points_from_csv rs radius)
  end.

End Ingestion.

(** ** Dependency check (lines 16-70) *)

Definition required_packages : list (string * string) :=
  [("numpy", "numpy"); ("PyOpenGL", "OpenGL");
   ("PyOpenGL_accelerate", "OpenGL_accelerate");
   ("pyopengltk", "pyopengltk"); ("Pillow", "PIL"); ("scipy", "scipy")]%string.

(** What the function does to the outside: the dialogs and the pip runs,
    in order. *)
Inductive dep_effect : Type :=
| AskYesNo (missing : list string)
| PipInstall (package : string)
| ShowError (package : string)
| ShowInfo
| ShowWarning.

(** How it ends: by returning, or by one of the three [sys.exit]. *)
Inductive dep_outcome : Type :=
| Returned
| ExitInstallFailed (package : string)
| ExitRestart
| ExitAborted.

Section Dependencies.

(** [importlib.util.find_spec(name) is not None] *)
Variable find_spec : string -> bool.
(** The answer to the yes/no dialog. *)
Variable response : bool.
(** Whether [pip install package] succeeds. *)
Variable pip_install : string -> bool.

Definition missing_packages : list string :=
  map fst (filter (fun p => negb (find_spec (snd p))) required_packages).

(** The loop of lines 43-57. *)
Fixpoint install_loop (packages : list string)
  : list dep_effect * option string :=
  match packages with
  | [] => ([], None)
  | package :: rest =>
      if pip_install package then
        let '(effects, failed) := install_loop rest in
        (PipInstall package :: effects, failed)
      else ([PipInstall package; ShowError package], Some package)
  end.

Definition check_and_install_dependencies : list dep_effect * dep_outcome :=
  match missing_packages with
  | [] => ([], Returned)
  | _ :: _ =>
      if response then
        match install_loop missing_packages with
        | (effects, Some package) =>
            (AskYesNo missing_packages :: effects, ExitInstallFailed package)
        | (effects, None) =>
            (AskYesNo missing_packages :: effects ++ [ShowInfo], ExitRestart)
        end
      else ([AskYesNo missing_packages; ShowWarning], ExitAborted)
  end.

End Dependencies.

(** ** Reading a point *)

(** The second coordinate: the height above the equatorial plane. *)
Definition height (p : point3) : R := snd (fst p).

Definition negate (p : point3) : point3 :=
  let '(x, y, z) := p in (- x, - y, - z).

(** A row that gives a point: both coordinates were read. *)
Definition located (row : csv_row) : bool :=
  match row_lat row, row_lon row with
  | Some _, Some _ => true
  | _, _ => false
  end.

(** A column gives the population [pop] of a row: it is there, not
    empty, and [float] reads it. *)
Definition usable_population (float_of_string : string -> option R)
  (row : raw_row) (pop_col : string) (pop : R) : Prop :=
  exists s, row_get pop_col row = Some (Some s)
            /\ nonempty s = true
            /\ float_of_string s = Some pop.

(** Both coordinates of a raw row are read. *)
Definition reads_point (float_of_string : string -> option R) (row : raw_row)
  : bool :=
  match float_field float_of_string "Latitude" row,
        float_field float_of_string "Longitude" row with
  | FieldValue _, FieldValue _ => true
  | _, _ => false
  end.

(** No coordinate of a raw row is [None]: the line was not short. *)
Definition complete_row (row : raw_row) : Prop :=
  row_get "Latitude" row <> Some None /\ row_get "Longitude" row <> Some None.

(** ** Comparing colours *)

(** Every component of the first colour is at most that of the second. *)
Definition rgba_le (c1 c2 : rgba) : Prop :=
  let '(r1, g1, b1, a1) := c1 in
  let '(r2, g2, b2, a2) := c2 in
  r1 <= r2 /\ g1 <= g2 /\ b1 <= b2 /\ a1 <= a2.

(** The red, green and blue components of two colours differ by at most
    [e]. *)
Definition rgb_within (e : R) (c1 c2 : rgba) : Prop :=
  let '(r1, g1, b1, _) := c1 in
  let '(r2, g2, b2, _) := c2 in
  Rabs (r2 - r1) <= e /\ Rabs (g2 - g1) <= e /\ Rabs (b2 - b1) <= e.

(** ** Invariants and event sequences *)

(** The point cloud's arrays are parallel: as many populations as
    points, [point_count] of them, and as many colours once computed. *)
Definition parallel_arrays (f : EarthViewerFrame) : Prop :=
  match points_vbo f, populations f with
  | None, None => colors_vbo f = None /\ point_count f = 0%nat
  | Some points, Some pops =>
      point_count f = List.length points
      /\ List.length pops = List.length points
      /\ match colors_vbo f with
         | Some colors => List.length colors = List.length points
         | None => True
         end
  | _, _ => False
  end.

(** The same wheel event, [n] times. *)
Definition wheel_times (n : nat) (ev : event) (f : EarthViewerFrame)
  : EarthViewerFrame :=
  run (repeat (MouseWheel ev) n) f.

(** A drag gesture: a press, then the motion events. *)
Definition gesture (press : event) (moves : list event) (f : EarthViewerFrame)
  : EarthViewerFrame :=
  run (ButtonPress1 press :: map B1Motion moves) f.

(** Where the pointer was at the end of a gesture. *)
Definition last_event (press : event) (moves : list event) : event :=
  last moves press.

(** ** Settings, scenes and wheel events *)

(** The frame once the two optional settings are stored (lines
    339-342). *)
Definition with_settings (scheme : option string) (logarithmic : option bool)
  (f : EarthViewerFrame) : EarthViewerFrame :=
  let f := match scheme with
           | Some s => set_color_scheme s f
           | None => f
           end in
  match logarithmic with
  | Some b => set_use_logarithmic b f
  | None => f
  end.

(** The frame [redraw] leaves. *)
Definition redrawn (f : EarthViewerFrame) : EarthViewerFrame :=
  set_gl (redraw_gl f (gl f)) f.

(** Everything in a frame that the mouse does not steer: the point
    data, the settings, the sphere rotation, the drawn frame and the
    printed output. *)
Definition same_scene (f f' : EarthViewerFrame) : Prop :=
  points_vbo f' = points_vbo f
  /\ colors_vbo f' = colors_vbo f
  /\ populations f' = populations f
  /\ point_count f' = point_count f
  /\ color_scheme f' = color_scheme f
  /\ use_logarithmic f' = use_logarithmic f
  /\ alpha_blending f' = alpha_blending f
  /\ sphere_rotation_x f' = sphere_rotation_x f
  /\ sphere_rotation_y f' = sphere_rotation_y f
  /\ sphere_rotation_z f' = sphere_rotation_z f
  /\ gl f' = gl f
  /\ stdout f' = stdout f.

(** The pixel position an event carries. *)
Definition position (ev : event) : Z * Z := (ev_x ev, ev_y ev).

(** A wheel event the handler reads as zooming out, as zooming in, or
    as neither. *)
Definition zooms_out (ev : event) : bool :=
  num_is ev 5 || Z.eqb (ev_delta ev) (-120).

Definition zooms_in (ev : event) : bool :=
  negb (zooms_out ev) && (num_is ev 4 || Z.eqb (ev_delta ev) 120).

(** ** The normaliser on every input (lines 207-228)

    [np.log1p] does not stop at or below -1: it returns -inf at -1 and
    nan below it, with a RuntimeWarning only, and the method goes on
    with these values.  An element of the scaled array is therefore a
    finite number, an infinity or nan, and the operations on the array
    are numpy's operations on such elements.  As above, a division whose
    divisor is zero and a reduction of an empty array are reported as
    errors. *)

Inductive fval : Type :=
| Fin (x : R)
| PosInf
| NegInf
| NaN.

(** [np.log1p] on a finite number. *)
Definition np_log1p (x : R) : fval :=
  if Rltb (-1) x then Fin (ln (1 + x))
  else if Reqb x (-1) then NegInf
  else NaN.

(** [a < b]; every comparison with nan is false. *)
Definition np_less (a b : fval) : bool :=
  match a, b with
  | Fin x, Fin y => Rltb x y
  | Fin _, PosInf => true
  | NegInf, Fin _ => true
  | NegInf, PosInf => true
  | _, _ => false
  end.

(** [a - b] *)
Definition np_subtract (a b : fval) : fval :=
  match a, b with
  | NaN, _ => NaN
  | _, NaN => NaN
  | Fin x, Fin y => Fin (x - y)
  | Fin _, PosInf => NegInf
  | Fin _, NegInf => PosInf
  | PosInf, PosInf => NaN
  | PosInf, _ => PosInf
  | NegInf, NegInf => NaN
  | NegInf, _ => NegInf
  end.

(** [a / b] *)
Definition np_divide (a b : fval) : result fval :=
  match b with
  | NaN => ok NaN
  | Fin y =>
      if Reqb y 0 then raise ZeroDivisor
      else ok match a with
              | Fin x => Fin (x / y)
              | PosInf => if Rltb 0 y then PosInf else NegInf
              | NegInf => if Rltb 0 y then NegInf else PosInf
              | NaN => NaN
              end
  | PosInf | NegInf =>
      ok match a with
         | Fin _ => Fin 0
         | _ => NaN
         end
  end.

(** [np.maximum] and [np.minimum] of two elements; both pass nan on. *)
Definition np_maximum (a b : fval) : fval :=
  match a, b with
  | NaN, _ => NaN
  | _, NaN => NaN
  | _, _ => if np_less a b then b else a
  end.

Definition np_minimum (a b : fval) : fval :=
  match a, b with
  | NaN, _ => NaN
  | _, NaN => NaN
  | _, _ => if np_less b a then b else a
  end.

(** [ndarray.min] and [ndarray.max] *)
Definition np_amin (l : list fval) : result fval :=
  match l with
  | [] => raise EmptyReduction
  | a :: l' => ok (fold_left np_minimum l' a)
  end.

Definition np_amax (l : list fval) : result fval :=
  match l with
  | [] => raise EmptyReduction
  | a :: l' => ok (fold_left np_maximum l' a)
  end.

(** [pop_values > 0] *)
Definition np_positive (t : fval) : bool := np_less (Fin 0) t.

Definition np_zeros_like (l : list fval) : list fval := map (fun _ => Fin 0) l.

(** Lines 208-212. *)
Definition np_pop_values (use_logarithmic : bool) (populations : list R)
  : list fval :=
  if use_logarithmic then map np_log1p populations else map Fin populations.

(** Lines 215-228. *)
Definition np_normalize_values (values : list fval) : result (list fval) :=
  let valid_pops := filter np_positive values in
  if Nat.eqb (List.length valid_pops) 0 then ok (np_zeros_like values)
  else
    min_pop <- np_amin valid_pops ;;
    max_pop <- np_amax valid_pops ;;
    if np_less min_pop max_pop then
      mapM (fun t =>
              q <- np_divide (np_subtract t min_pop)
                             (np_subtract max_pop min_pop) ;;
              ok (np_maximum (Fin 0) q)) values
    else ok (np_zeros_like values).

Definition np_normalized_pops (use_logarithmic : bool) (populations : list R)
  : result (list fval) :=
  np_normalize_values (np_pop_values use_logarithmic populations).


(** The finite elements of an array, and the positive ones among
    them. *)
Fixpoint finite_values (values : list fval) : list R :=
  match values with
  | [] => []
  | Fin x :: rest => x :: finite_values rest
  | _ :: rest => finite_values rest
  end.

Definition finite_positives (values : list fval) : list R :=
  filter positive (finite_values values).

(** An element other than +inf. *)
Definition no_pos_inf (t : fval) : Prop := t <> PosInf.


(** [np.maximum(0, (t - min_pop) / (max_pop - min_pop))] for
    [min_pop < max_pop]. *)
Definition scaled (min_pop max_pop : R) (t : fval) : fval :=
  match t with
  | Fin x => Fin (Rmax 0 ((x - min_pop) / (max_pop - min_pop)))
  | NegInf => Fin 0
  | PosInf => PosInf
  | NaN => NaN
  end.

(** ** Proof automation *)

(** Decide one float comparison of the goal, keeping the fact. *)
Ltac cmp_case c dec a b :=
  let H := fresh "Hcmp" in
  destruct (c a b) eqn:H; unfold c in H;
  destruct (dec a b); try discriminate H; clear H.

Ltac cmp_cases :=
  repeat match goal with
  | |- context [Rltb ?a ?b] => cmp_case Rltb Rlt_dec a b
  | |- context [Rleb ?a ?b] => cmp_case Rleb Rle_dec a b
  | |- context [Reqb ?a ?b] => cmp_case Reqb Req_dec_T a b
  end.

(** Decide the first hue sector test of the goal, left to right. *)
Ltac sector_case :=
  match goal with
  | |- context [Rleb ?a ?h && Rltb ?h ?b] =>
      cmp_case Rleb Rle_dec a h; cbn [andb];
      [cmp_case Rltb Rlt_dec h b|]
  end.

(** Equality of two colours, and of two matrices, component by
    component. *)
Ltac rgba_eq :=
  apply pair_equal_spec; split;
  [apply pair_equal_spec; split; [apply pair_equal_spec; split|]|]; lra.

Ltac mat_eq :=
  unfold mat_identity;
  repeat (apply pair_equal_spec; split); try lra; try ring.

Ltac unit_bounds := unfold rgba_in_unit, in_unit; lra.

(** * Properties *)

(** ** GeoProjector *)

Lemma radians_0 : radians 0 = 0.
Proof. unfold radians. lra. Qed.

Lemma radians_180 : radians 180 = PI.
Proof. unfold radians. lra. Qed.

Lemma project_north_pole (lon radius : R) :
  project 90 lon radius = (0, radius, 0).
Proof.
  unfold project.
  replace (90 - 90) with 0 by lra.
  rewrite radians_0, sin_0, cos_0.
  f_equal; [f_equal|]; ring.
Qed.

Lemma project_south_pole (lon radius : R) :
  project (-90) lon radius = (0, - radius, 0).
Proof.
  unfold project.
  replace (90 - -90) with 180 by lra.
  rewrite radians_180, sin_PI, cos_PI.
  f_equal; [f_equal|]; ring.
Qed.

Lemma project_sum_of_squares (lat lon radius : R) :
  let '(x, y, z) := project lat lon radius in
  x * x + y * y + z * z = radius * radius.
Proof.
  unfold project; cbv zeta.
  set (theta := radians (90 - lat)).
  set (phi := radians lon).
  pose proof (sin2_cos2 theta) as Ht.
  pose proof (sin2_cos2 phi) as Hp.
  unfold Rsqr in Ht, Hp.
  transitivity
    (radius * radius *
     (sin theta * sin theta * (sin phi * sin phi + cos phi * cos phi)
      + cos theta * cos theta)).
  - ring.
  - rewrite Hp, Rmult_1_r, Ht. ring.
Qed.

Lemma project_norm_abs (lat lon radius : R) :
  norm3 (project lat lon radius) = Rabs radius.
Proof.
  pose proof (project_sum_of_squares lat lon radius) as H.
  destruct (project lat lon radius) as [[x y] z].
  unfold norm3. rewrite H.
  apply sqrt_Rsqr_abs.
Qed.

Lemma generated_points_on_sphere (rows : list csv_row) (radius : R) (p : point3) :
  In p (fst (generate_points_from_csv rows radius)) ->
  (exists lat lon, p = project lat lon radius) /\ norm3 p = Rabs radius.
Proof.
  induction rows as [|row rows IH]; simpl; [intros []|].
  destruct (generate_points_from_csv rows radius) as [points pops].
  destruct (row_lat row) as [lat|]; [|exact IH].
  destruct (row_lon row) as [lon|]; [|exact IH].
  simpl. intros [<-|Hp]; [|exact (IH Hp)].
  split; [now exists lat, lon|apply project_norm_abs].
Qed.

(** C1: for a latitude in [-90,90], a longitude in [-180,180] and any
    radius, the projected point is
    (-r sin(theta) cos(phi), r cos(theta), r sin(theta) sin(phi)) with
    theta = radians(90 - lat) and phi = radians(lon); latitude 90 gives
    (0, r, 0), latitude -90 gives (0, -r, 0), and the Euclidean norm of
    the point is |r|, which is r for a radius that is not negative. *)
Theorem project_on_sphere (lat lon radius : R) :
  -90 <= lat <= 90 ->
  -180 <= lon <= 180 ->
  project lat lon radius =
    (- radius * sin (radians (90 - lat)) * cos (radians lon),
     radius * cos (radians (90 - lat)),
     radius * sin (radians (90 - lat)) * sin (radians lon))
  /\ project 90 lon radius = (0, radius, 0)
  /\ project (-90) lon radius = (0, - radius, 0)
  /\ norm3 (project lat lon radius) = Rabs radius
  /\ (0 <= radius -> norm3 (project lat lon radius) = radius).
Proof.
  intros _ _.
  split; [reflexivity|].
  split; [apply project_north_pole|].
  split; [apply project_south_pole|].
  split; [apply project_norm_abs|].
  intros Hr. rewrite project_norm_abs. apply Rabs_pos_eq, Hr.
Qed.

Lemma project_on_sphere_witness :
  project 0 0 2.5 =
    (- (2.5) * sin (radians (90 - 0)) * cos (radians 0),
     2.5 * cos (radians (90 - 0)),
     2.5 * sin (radians (90 - 0)) * sin (radians 0))
  /\ project 90 0 2.5 = (0, 2.5, 0)
  /\ project (-90) 0 2.5 = (0, - (2.5), 0)
  /\ norm3 (project 0 0 2.5) = Rabs 2.5
  /\ (0 <= 2.5 -> norm3 (project 0 0 2.5) = 2.5).
Proof.
  apply (project_on_sphere 0 0 2.5); lra.
Defined.

(** ** Comparisons and the error monad *)

Lemma Rltb_true (a b : R) : Rltb a b = true <-> a < b.
Proof. unfold Rltb. destruct (Rlt_dec a b); split; intros; try easy. Qed.

Lemma Rltb_false (a b : R) : Rltb a b = false <-> b <= a.
Proof.
  unfold Rltb. destruct (Rlt_dec a b); split; intros; try easy; lra.
Qed.

Lemma Rleb_true (a b : R) : Rleb a b = true <-> a <= b.
Proof. unfold Rleb. destruct (Rle_dec a b); split; intros; try easy. Qed.

Lemma Rleb_false (a b : R) : Rleb a b = false <-> b < a.
Proof.
  unfold Rleb. destruct (Rle_dec a b); split; intros; try easy; lra.
Qed.

Lemma Reqb_true (a b : R) : Reqb a b = true <-> a = b.
Proof. unfold Reqb. destruct (Req_dec_T a b); split; intros; try easy. Qed.

Lemma Reqb_false (a b : R) : Reqb a b = false <-> a <> b.
Proof. unfold Reqb. destruct (Req_dec_T a b); split; intros; try easy. Qed.

Lemma mapM_ok {A B : Type} (f : A -> result B) (g : A -> B) (l : list A) :
  (forall a, In a l -> f a = ok (g a)) -> mapM f l = ok (map g l).
Proof.
  induction l as [|a l IH]; intros H; simpl.
  - reflexivity.
  - rewrite (H a (or_introl eq_refl)). simpl.
    rewrite IH by (intros b Hb; apply H; right; exact Hb).
    reflexivity.
Qed.

(** ** PopulationNormalizer *)

Lemma fold_Rmin_is_min (l : list R) (a : R) :
  is_min (a :: l) (fold_left Rmin l a).
Proof.
  revert a. induction l as [|b l IH]; intros a; simpl.
  - split; [now left|]. intros x [<-|[]]. lra.
  - destruct (IH (Rmin a b)) as [Hin Hle]. split.
    + destruct Hin as [Heq|Hin]; [|now right; right].
      rewrite <- Heq. unfold Rmin. destruct (Rle_dec a b); [now left|now right; left].
    + intros x [<-|[<-|Hx]].
      * etransitivity; [apply Hle; now left|apply Rmin_l].
      * etransitivity; [apply Hle; now left|apply Rmin_r].
      * apply Hle. now right.
Qed.

Lemma fold_Rmax_is_max (l : list R) (a : R) :
  is_max (a :: l) (fold_left Rmax l a).
Proof.
  revert a. induction l as [|b l IH]; intros a; simpl.
  - split; [now left|]. intros x [<-|[]]. lra.
  - destruct (IH (Rmax a b)) as [Hin Hle]. split.
    + destruct Hin as [Heq|Hin]; [|now right; right].
      rewrite <- Heq. unfold Rmax. destruct (Rle_dec a b); [now right; left|now left].
    + intros x [<-|[<-|Hx]].
      * etransitivity; [apply Rmax_l|apply Hle; now left].
      * etransitivity; [apply Rmax_r|apply Hle; now left].
      * apply Hle. now right.
Qed.

Lemma amin_is_min (l : list R) :
  l <> [] -> exists m, amin l = ok m /\ is_min l m.
Proof.
  destruct l as [|a l]; [congruence|]. intros _.
  exists (fold_left Rmin l a). split; [reflexivity|apply fold_Rmin_is_min].
Qed.

Lemma amax_is_max (l : list R) :
  l <> [] -> exists m, amax l = ok m /\ is_max l m.
Proof.
  destruct l as [|a l]; [congruence|]. intros _.
  exists (fold_left Rmax l a). split; [reflexivity|apply fold_Rmax_is_max].
Qed.

Lemma is_min_unique (l : list R) (m m' : R) :
  is_min l m -> is_min l m' -> m = m'.
Proof.
  intros [Hin Hle] [Hin' Hle']. apply Rle_antisym; auto.
Qed.

Lemma is_max_unique (l : list R) (m m' : R) :
  is_max l m -> is_max l m' -> m = m'.
Proof.
  intros [Hin Hle] [Hin' Hle']. apply Rle_antisym; auto.
Qed.

Lemma positive_true (t : R) : positive t = true <-> 0 < t.
Proof. apply Rltb_true. Qed.

Lemma in_valid (values : list R) (t : R) :
  In t (filter positive values) <-> In t values /\ 0 < t.
Proof. rewrite filter_In, positive_true. reflexivity. Qed.

Lemma divide_ok (a b : R) : b <> 0 -> divide a b = ok (a / b).
Proof.
  intros Hb. unfold divide.
  destruct (Reqb b 0) eqn:E; [apply Reqb_true in E; contradiction|reflexivity].
Qed.

(** The three branches of the normalisation, with the facts under which
    each one is taken. *)
Lemma normalize_values_cases (values : list R) :
  (filter positive values = []
   /\ normalize_values values = ok (zeros_like values))
  \/ exists min_pop max_pop,
       is_min (filter positive values) min_pop
       /\ is_max (filter positive values) max_pop
       /\ ((min_pop = max_pop
            /\ normalize_values values = ok (zeros_like values))
           \/ (min_pop < max_pop
               /\ normalize_values values =
                    ok (map (fun t => Rmax 0 ((t - min_pop) / (max_pop - min_pop)))
                            values))).
Proof.
  unfold normalize_values.
  destruct (filter positive values) as [|v vs] eqn:Hvalid.
  - left. split; reflexivity.
  - right.
    assert (Hne : v :: vs <> []) by discriminate.
    destruct (amin_is_min _ Hne) as [mn [Hmn Hmin]].
    destruct (amax_is_max _ Hne) as [mx [Hmx Hmax]].
    exists mn, mx. split; [exact Hmin|]. split; [exact Hmax|].
    change (Nat.eqb (List.length (v :: vs)) 0) with false. cbv iota.
    rewrite Hmn, Hmx. simpl bind.
    assert (Hle : mn <= mx) by (apply Hmax, Hmin).
    destruct (Rltb mn mx) eqn:Hlt.
    + apply Rltb_true in Hlt. right. split; [exact Hlt|].
      apply mapM_ok. intros t _.
      rewrite divide_ok by lra. reflexivity.
    + apply Rltb_false in Hlt. left. split; [lra|reflexivity].
Qed.

Lemma normalize_values_total (values : list R) :
  exists out, normalize_values values = ok out
              /\ List.length out = List.length values.
Proof.
  destruct (normalize_values_cases values)
    as [[_ H]|[mn [mx [_ [_ [[_ H]|[_ H]]]]]]];
    rewrite H; eexists; (split; [reflexivity|]);
    unfold zeros_like; apply length_map.
Qed.

Lemma log1p_cases (x : R) :
  (-1 < x /\ log1p x = ok (ln (1 + x)))
  \/ (x <= -1 /\ log1p x = raise InvalidValue).
Proof.
  unfold log1p. destruct (Rltb (-1) x) eqn:E.
  - apply Rltb_true in E. now left.
  - apply Rltb_false in E. now right.
Qed.

Lemma mapM_log1p_cases (l : list R) :
  (Forall (fun p => -1 < p) l
   /\ mapM log1p l = ok (map (fun v => ln (1 + v)) l))
  \/ (Exists (fun p => p <= -1) l /\ mapM log1p l = raise InvalidValue).
Proof.
  induction l as [|a l IH]; simpl.
  - left. split; [constructor|reflexivity].
  - destruct (log1p_cases a) as [[Ha Hl]|[Ha Hl]]; rewrite Hl; simpl.
    + destruct IH as [[Hall IH]|[Hex IH]]; rewrite IH; simpl.
      * left. split; [constructor; assumption|reflexivity].
      * right. split; [now apply Exists_cons_tl|reflexivity].
    + right. split; [now apply Exists_cons_hd|reflexivity].
Qed.

Lemma pop_values_in_domain (use_logarithmic : bool) (populations : list R) :
  (use_logarithmic = true -> Forall (fun p => -1 < p) populations) ->
  pop_values use_logarithmic populations =
    ok (if use_logarithmic
        then map (fun v => ln (1 + v)) populations
        else populations).
Proof.
  intros Hdom. unfold pop_values. destruct use_logarithmic; [|reflexivity].
  destruct (mapM_log1p_cases populations) as [[_ H]|[Hex _]]; [exact H|].
  specialize (Hdom eq_refl).
  apply Exists_exists in Hex. destruct Hex as [p [Hin Hp]].
  rewrite Forall_forall in Hdom. specialize (Hdom p Hin). lra.
Qed.

Lemma scaled_in_unit (values : list R) (min_pop max_pop t : R) :
  is_min (filter positive values) min_pop ->
  is_max (filter positive values) max_pop ->
  min_pop < max_pop ->
  In t values ->
  in_unit (Rmax 0 ((t - min_pop) / (max_pop - min_pop))).
Proof.
  intros [Hmin_in Hmin] [Hmax_in Hmax] Hlt Ht.
  apply in_valid in Hmin_in. destruct Hmin_in as [_ Hpos].
  set (d := max_pop - min_pop).
  assert (Hd : 0 < d) by (unfold d; lra).
  assert (Hq : (t - min_pop) / d * d = t - min_pop) by (field; lra).
  assert (Hub : (t - min_pop) / d <= 1).
  { destruct (Rlt_dec 0 t) as [Htpos|Htneg].
    - assert (t <= max_pop) by (apply Hmax, in_valid; now split).
      unfold d in *. nra.
    - unfold d in *. nra. }
  split.
  - apply Rmax_l.
  - apply Rmax_lub; lra.
Qed.

Lemma scaled_below_min (min_pop max_pop t : R) :
  min_pop < max_pop -> t <= min_pop ->
  Rmax 0 ((t - min_pop) / (max_pop - min_pop)) = 0.
Proof.
  intros Hlt Ht. apply Rmax_left.
  set (d := max_pop - min_pop).
  assert (Hd : 0 < d) by (unfold d; lra).
  assert (Hq : (t - min_pop) / d * d = t - min_pop) by (field; lra).
  nra.
Qed.

Lemma zeros_like_in_unit (values : list R) : Forall in_unit (zeros_like values).
Proof.
  unfold zeros_like. apply Forall_forall. intros o Ho.
  apply in_map_iff in Ho. destruct Ho as [_ [<- _]]. unfold in_unit. lra.
Qed.

Lemma zeros_like_all_zero (values : list R) :
  Forall (fun o => o = 0) (zeros_like values).
Proof.
  unfold zeros_like. apply Forall_forall. intros o Ho.
  apply in_map_iff in Ho. destruct Ho as [_ [<- _]]. reflexivity.
Qed.

Lemma no_positive_among_zeros (use_logarithmic : bool) (populations : list R) :
  Forall (fun p => p = 0) populations ->
  filter positive
    (if use_logarithmic then map (fun v => ln (1 + v)) populations
     else populations) = [].
Proof.
  intros Hz.
  assert (H0 : forall l, Forall (fun p => p = 0) l -> filter positive l = []).
  { induction 1 as [|a l Ha _ IH]; simpl; [reflexivity|].
    subst a. unfold positive.
    destruct (Rltb 0 0) eqn:E; [apply Rltb_true in E; lra|exact IH]. }
  apply H0. destruct use_logarithmic; [|exact Hz].
  apply Forall_forall. intros t Ht.
  apply in_map_iff in Ht. destruct Ht as [p [<- Hp]].
  rewrite Forall_forall in Hz. rewrite (Hz p Hp).
  replace (1 + 0) with 1 by lra. apply ln_1.
Qed.

(** Where the scaled values are finite (populations above -1 in
    logarithmic mode) the normaliser returns one output per population,
    each in [0,1]; when no scaled value is strictly positive every output
    is 0; when the least and the greatest positive scaled value coincide
    every output is 0; otherwise a scaled value t becomes
    max(0, (t - min) / (max - min)), which is 0 for every t at or below
    min. *)
Theorem normalized_pops_spec (use_logarithmic : bool) (populations : list R) :
  (use_logarithmic = true -> Forall (fun p => -1 < p) populations) ->
  exists values out,
    values = (if use_logarithmic
              then map (fun v => ln (1 + v)) populations
              else populations)
    /\ pop_values use_logarithmic populations = ok values
    /\ normalized_pops use_logarithmic populations = ok out
    /\ List.length out = List.length populations
    /\ Forall in_unit out
    /\ (filter positive values = [] -> Forall (fun o => o = 0) out)
    /\ (Forall (fun p => p = 0) populations -> Forall (fun o => o = 0) out)
    /\ (forall min_pop max_pop,
          is_min (filter positive values) min_pop ->
          is_max (filter positive values) max_pop ->
          (max_pop = min_pop -> Forall (fun o => o = 0) out)
          /\ (max_pop <> min_pop ->
              out = map (fun t => Rmax 0 ((t - min_pop) / (max_pop - min_pop)))
                        values
              /\ Forall2 (fun t o => t <= min_pop -> o = 0) values out)).
Proof.
  intros Hdom.
  pose proof (pop_values_in_domain use_logarithmic populations Hdom) as Hpv.
  set (values := if use_logarithmic
                 then map (fun v => ln (1 + v)) populations
                 else populations) in *.
  assert (Hlen : List.length values = List.length populations).
  { unfold values. destruct use_logarithmic; [apply length_map|reflexivity]. }
  unfold normalized_pops. rewrite Hpv. simpl bind.
  destruct (normalize_values_cases values)
    as [[Hnone Hout]|[mn [mx [Hmin [Hmax [[Heq Hout]|[Hlt Hout]]]]]]].
  - (* no positive value *)
    exists values, (zeros_like values).
    split; [reflexivity|]. split; [reflexivity|]. split; [exact Hout|].
    split; [unfold zeros_like; rewrite length_map; exact Hlen|].
    split; [apply zeros_like_in_unit|].
    split; [intros _; apply zeros_like_all_zero|].
    split; [intros _; apply zeros_like_all_zero|].
    intros mn mx Hmin _. rewrite Hnone in Hmin. destruct Hmin as [[] _].
  - (* degenerate range *)
    exists values, (zeros_like values).
    split; [reflexivity|]. split; [reflexivity|]. split; [exact Hout|].
    split; [unfold zeros_like; rewrite length_map; exact Hlen|].
    split; [apply zeros_like_in_unit|].
    split; [intros _; apply zeros_like_all_zero|].
    split; [intros _; apply zeros_like_all_zero|].
    intros mn' mx' Hmin' Hmax'.
    rewrite (is_min_unique _ _ _ Hmin' Hmin), (is_max_unique _ _ _ Hmax' Hmax).
    split; [intros _; apply zeros_like_all_zero|].
    intros Hne. exfalso. apply Hne. symmetry. exact Heq.
  - (* proper range *)
    exists values,
      (map (fun t => Rmax 0 ((t - mn) / (mx - mn))) values).
    split; [reflexivity|]. split; [reflexivity|]. split; [exact Hout|].
    split; [rewrite length_map; exact Hlen|].
    split.
    { apply Forall_forall. intros o Ho.
      apply in_map_iff in Ho. destruct Ho as [t [<- Ht]].
      apply (scaled_in_unit values); assumption. }
    split.
    { intros Hnone. rewrite Hnone in Hmin. destruct Hmin as [[] _]. }
    split.
    { intros Hz.
      pose proof (no_positive_among_zeros use_logarithmic populations Hz) as Hnone.
      fold values in Hnone. rewrite Hnone in Hmin. destruct Hmin as [[] _]. }
    intros mn' mx' Hmin' Hmax'.
    rewrite (is_min_unique _ _ _ Hmin' Hmin), (is_max_unique _ _ _ Hmax' Hmax).
    split; [intros; lra|]. intros _. split; [reflexivity|].
    clear - Hlt. induction values as [|t l IH]; simpl; constructor; [|exact IH].
    intros Ht. apply scaled_below_min; assumption.
Qed.

Lemma normalized_pops_spec_witness :
  Forall (fun p => -1 < p) [100; 0; 1000000]
  /\ exists out,
       normalized_pops true [100; 0; 1000000] = ok out
       /\ List.length out = 3%nat
       /\ Forall in_unit out.
Proof.
  assert (Hdom : Forall (fun p => -1 < p) [100; 0; 1000000])
    by (repeat constructor; lra).
  split; [exact Hdom|].
  destruct (normalized_pops_spec true [100; 0; 1000000] (fun _ => Hdom))
    as [values [out [_ [_ [Hout [Hlen [Hunit _]]]]]]].
  exists out. split; [exact Hout|]. split; [exact Hlen|exact Hunit].
Defined.

Lemma normalized_pops_error_cases (use_logarithmic : bool) (populations : list R) :
  (exists out, normalized_pops use_logarithmic populations = ok out
               /\ List.length out = List.length populations)
  \/ (use_logarithmic = true
      /\ Exists (fun p => p <= -1) populations
      /\ normalized_pops use_logarithmic populations = raise InvalidValue).
Proof.
  unfold normalized_pops, pop_values.
  destruct use_logarithmic.
  - destruct (mapM_log1p_cases populations) as [[_ H]|[Hex H]]; rewrite H.
    + left. simpl bind.
      destruct (normalize_values_total (map (fun v => ln (1 + v)) populations))
        as [out [Hout Hlen]].
      exists out. split; [exact Hout|]. now rewrite Hlen, length_map.
    + right. repeat split; [exact Hex].
  - left. simpl bind. apply normalize_values_total.
Qed.

(** On finite scaled values the normaliser divides by zero for no
    input and takes the least or greatest element of an empty array for
    no input, the two degenerate branches being decided before the
    division; an all-zero population set gives all zeros. *)
Theorem normalized_pops_no_numeric_error
  (use_logarithmic : bool) (populations : list R) :
  normalized_pops use_logarithmic populations <> raise ZeroDivisor
  /\ normalized_pops use_logarithmic populations <> raise EmptyReduction
  /\ (forall values, exists out, normalize_values values = ok out)
  /\ ((use_logarithmic = true -> Forall (fun p => -1 < p) populations) ->
      exists out, normalized_pops use_logarithmic populations = ok out)
  /\ (Forall (fun p => p = 0) populations ->
      normalized_pops use_logarithmic populations = ok (zeros_like populations)).
Proof.
  split; [|split; [|split; [|split]]].
  - destruct (normalized_pops_error_cases use_logarithmic populations)
      as [[out [H _]]|[_ [_ H]]]; rewrite H; discriminate.
  - destruct (normalized_pops_error_cases use_logarithmic populations)
      as [[out [H _]]|[_ [_ H]]]; rewrite H; discriminate.
  - intros values. destruct (normalize_values_total values) as [out [H _]].
    exists out. exact H.
  - intros Hdom.
    destruct (normalized_pops_error_cases use_logarithmic populations)
      as [[out [H _]]|[Hlog [Hex _]]]; [exists out; exact H|].
    specialize (Hdom Hlog).
    apply Exists_exists in Hex. destruct Hex as [p [Hin Hp]].
    rewrite Forall_forall in Hdom. specialize (Hdom p Hin). lra.
  - intros Hz.
    assert (Hdom : use_logarithmic = true -> Forall (fun p => -1 < p) populations).
    { intros _. eapply Forall_impl; [|exact Hz]. simpl. intros p ->. lra. }
    unfold normalized_pops.
    rewrite (pop_values_in_domain _ _ Hdom). simpl bind.
    pose proof (no_positive_among_zeros use_logarithmic populations Hz) as Hnone.
    destruct (normalize_values_cases
                (if use_logarithmic
                 then map (fun v => ln (1 + v)) populations
                 else populations))
      as [[_ Hout]|[mn [_ [Hmin _]]]].
    + rewrite Hout. f_equal. unfold zeros_like.
      destruct use_logarithmic; [apply map_map|reflexivity].
    + rewrite Hnone in Hmin. destruct Hmin as [[] _].
Qed.

Lemma normalized_pops_no_numeric_error_witness :
  Forall (fun p => p = 0) [0; 0; 0]
  /\ normalized_pops true [0; 0; 0] = ok [0; 0; 0]
  /\ exists out, normalized_pops true [0; 0; 0] = ok out.
Proof.
  assert (Hz : Forall (fun p => p = 0) [0; 0; 0]) by (repeat constructor).
  assert (Hdom : true = true -> Forall (fun p => -1 < p) [0; 0; 0])
    by (intros _; repeat constructor; lra).
  destruct (normalized_pops_no_numeric_error true [0; 0; 0])
    as [_ [_ [_ [Hval Hzero]]]].
  split; [exact Hz|]. split; [exact (Hzero Hz)|exact (Hval Hdom)].
Defined.

(** ** ColormapEngine *)

Lemma plasma_in_unit (v : R) : in_unit v -> rgba_in_unit (plasma v).
Proof. unfold in_unit, plasma. intros Hv. cmp_cases; unit_bounds. Qed.

Lemma viridis_in_unit (v : R) : in_unit v -> rgba_in_unit (viridis v).
Proof. unfold in_unit, viridis. intros Hv. cmp_cases; unit_bounds. Qed.

Lemma cool_in_unit (v : R) : in_unit v -> rgba_in_unit (cool v).
Proof. unfold in_unit, cool. intros Hv. unit_bounds. Qed.

Lemma green_red_in_unit (v : R) : in_unit v -> rgba_in_unit (green_red v).
Proof. unfold in_unit, green_red. intros Hv. unit_bounds. Qed.

Lemma fmod_bounds (a m : R) : 0 < m -> 0 <= fmod a m < m.
Proof.
  intros Hm. unfold fmod.
  pose proof (Zfloor_bound (a / m)) as [Hlo Hhi].
  assert (Hq : a / m * m = a) by (field; lra).
  set (k := IZR (Zfloor (a / m))) in *.
  split; nra.
Qed.

Lemma fmod_small (a m : R) : 0 <= a < m -> fmod a m = a.
Proof.
  intros [Hlo Hhi]. unfold fmod.
  assert (Hm : 0 < m) by lra.
  assert (Hq : a / m * m = a) by (field; lra).
  rewrite (Zfloor_eq 0 (a / m)); [simpl; ring|].
  simpl. split; nra.
Qed.

Lemma hsv_to_rgb_full_in_unit (h : R) :
  let '(r, g, b) := hsv_to_rgb h 1.0 1.0 in
  in_unit r /\ in_unit g /\ in_unit b.
Proof.
  unfold hsv_to_rgb.
  set (h' := fmod h 360).
  pose proof (fmod_bounds (h' / 60) 2 ltac:(lra)) as Hf.
  set (f := fmod (h' / 60) 2) in *.
  assert (Hx : 0 <= 1 - Rabs (f - 1) <= 1).
  { unfold Rabs. destruct (Rcase_abs (f - 1)); lra. }
  set (x := 1 - Rabs (f - 1)) in *.
  repeat sector_case; simpl; unfold in_unit; lra.
Qed.

Lemma rainbow_in_unit (v : R) : rgba_in_unit (rainbow v).
Proof.
  unfold rainbow.
  pose proof (hsv_to_rgb_full_in_unit (v * 300)) as H.
  destruct (hsv_to_rgb (v * 300) 1.0 1.0) as [[r g] b].
  unfold rgba_in_unit. repeat split; try apply H; unfold in_unit; lra.
Qed.

(** The hot map stays within bounds up to 0.66 + 1/3, and leaves them
    beyond. *)
Lemma hot_in_unit_below (v : R) :
  0 <= v <= 149 / 150 -> rgba_in_unit (hot v).
Proof. unfold hot. intros Hv. cmp_cases; unit_bounds. Qed.

Lemma hot_blue_above (v : R) :
  149 / 150 < v -> hot v = (1.0, 1.0, (v - 0.66) * 3, 1.0) /\ 1 < (v - 0.66) * 3.
Proof.
  unfold hot. intros Hv. cmp_cases; try lra. split; [reflexivity|lra].
Qed.

Lemma hot_at_one : hot 1 = (1, 1, 1.02, 1).
Proof. unfold hot. cmp_cases; try lra. rgba_eq. Qed.

(** Five of the six schemes keep every component within [0,1]. *)
Lemma color_of_in_unit_except_hot (color_scheme : string) (v : R) :
  color_scheme <> "hot"%string -> in_unit v ->
  rgba_in_unit (color_of color_scheme v).
Proof.
  intros Hs Hv. unfold color_of.
  destruct (String.eqb color_scheme "plasma"); [now apply plasma_in_unit|].
  destruct (String.eqb color_scheme "viridis"); [now apply viridis_in_unit|].
  destruct (String.eqb color_scheme "hot") eqn:E;
    [apply String.eqb_eq in E; contradiction|].
  destruct (String.eqb color_scheme "cool"); [now apply cool_in_unit|].
  destruct (String.eqb color_scheme "rainbow"); [apply rainbow_in_unit|].
  now apply green_red_in_unit.
Qed.

(** The value 1 is what the normaliser gives the most populated point. *)
Lemma normalized_pops_reaches_one : normalized_pops false [1; 2] = ok [0; 1].
Proof.
  unfold normalized_pops, pop_values, normalize_values. simpl bind.
  unfold positive. simpl filter.
  assert (H1 : Rltb 0 1 = true) by (apply Rltb_true; lra).
  assert (H2 : Rltb 0 2 = true) by (apply Rltb_true; lra).
  rewrite H1, H2. simpl.
  assert (Hmin : Rmin 1 2 = 1) by (apply Rmin_left; lra).
  assert (Hmax : Rmax 1 2 = 2) by (apply Rmax_right; lra).
  rewrite Hmin, Hmax.
  assert (H3 : Rltb 1 2 = true) by (apply Rltb_true; lra).
  rewrite H3. simpl.
  rewrite !divide_ok by lra. simpl. unfold ok. do 2 f_equal.
  - apply Rmax_left. lra.
  - f_equal. rewrite Rmax_right; lra.
Qed.

(** C3: under the hot scheme the normalised value 1 is coloured
    (1, 1, 1.02, 1): the blue component exceeds 1, so the colour is not
    within [0,1]^4. *)
Theorem hot_leaves_unit_range :
  in_unit 1
  /\ generate_color_scheme "hot" [1] = [(1, 1, 1.02, 1)]
  /\ ~ rgba_in_unit (color_of "hot" 1).
Proof.
  split; [unfold in_unit; lra|]. split.
  - unfold generate_color_scheme. cbn [map].
    change (color_of "hot" 1) with (hot 1). rewrite hot_at_one. reflexivity.
  - change (color_of "hot" 1) with (hot 1). rewrite hot_at_one.
    unfold rgba_in_unit, in_unit. lra.
Qed.

(** C4: the anchor values of the colour maps.  The two green-red
    anchors, the cool anchor and hot(0) are as listed; hot(1) is
    (1, 1, 1.02, 1), not (1, 1, 1, 1). *)
Theorem colormap_anchors :
  color_of "green-red" 0 = (0, 1, 0, 0.8)
  /\ color_of "green-red" 1 = (1, 0, 0, 0.8)
  /\ color_of "cool" 0.5 = (0.5, 0.5, 1, 0.8)
  /\ color_of "hot" 0 = (0, 0, 0, 0.7)
  /\ color_of "hot" 1 = (1, 1, 1.02, 1)
  /\ color_of "hot" 1 <> (1, 1, 1, 1.0).
Proof.
  repeat split.
  - change (color_of "green-red" 0) with (green_red 0).
    unfold green_red. rgba_eq.
  - change (color_of "green-red" 1) with (green_red 1).
    unfold green_red. rgba_eq.
  - change (color_of "cool" 0.5) with (cool 0.5). unfold cool. rgba_eq.
  - change (color_of "hot" 0) with (hot 0). unfold hot.
    cmp_cases; try lra. rgba_eq.
  - exact hot_at_one.
  - change (color_of "hot" 1) with (hot 1). rewrite hot_at_one.
    intros H. injection H as H. lra.
Qed.

(** The claim of C8 fails at 0.25, where the second segment starts: the
    alpha there is 0.9. *)
Lemma viridis_alpha_not_one_from_quarter :
  ~ (forall v, in_unit v -> 0.25 <= v -> alpha (color_of "viridis" v) = 1.0).
Proof.
  intros H. specialize (H 0.25).
  change (color_of "viridis" 0.25) with (viridis 0.25) in H.
  unfold viridis, in_unit in H. revert H. cmp_cases; try lra.
  simpl. intros H. specialize (H ltac:(lra) ltac:(lra)). lra.
Qed.

(** C8 (amended): under the viridis scheme the alpha component is 0.8
    on the first segment (v < 0.25), 0.9 on the second
    (0.25 <= v < 0.5) and 1.0 from 0.5 on. *)
Theorem viridis_alpha_steps (v : R) :
  in_unit v ->
  (v < 0.25 -> alpha (color_of "viridis" v) = 0.8)
  /\ (0.25 <= v < 0.5 -> alpha (color_of "viridis" v) = 0.9)
  /\ (0.5 <= v -> alpha (color_of "viridis" v) = 1.0).
Proof.
  intros _. change (color_of "viridis" v) with (viridis v).
  unfold viridis. cmp_cases; simpl; repeat split; intros; lra.
Qed.

Lemma viridis_alpha_steps_witness :
  in_unit 0.25 /\ alpha (color_of "viridis" 0.25) = 0.9.
Proof.
  assert (Hu : in_unit 0.25) by (unfold in_unit; lra).
  split; [exact Hu|].
  destruct (viridis_alpha_steps 0.25 Hu) as [_ [H _]].
  apply H. lra.
Defined.

(** ** CameraState *)

Lemma compute_population_colors_prints (populations : list R)
  (f : EarthViewerFrame) :
  exists lines,
    fst (compute_population_colors populations f) =
      set_stdout (stdout f ++ lines) f.
Proof.
  unfold compute_population_colors, abind, print, modify, gets, lift, ret.
  cbn.
  destruct (pop_values (use_logarithmic f) populations) as [e|values];
    [eexists; reflexivity|].
  destruct (normalize_values values) as [e|normalized];
    [eexists; reflexivity|].
  destruct (amin populations) as [e|lo]; [eexists; reflexivity|].
  destruct (amax populations) as [e|hi]; [eexists; reflexivity|].
  cbn.
  destruct (use_logarithmic f).
  - destruct (amin values) as [e|lo']; [cbn; eexists; rewrite <- app_assoc; reflexivity|].
    destruct (amax values) as [e|hi']; cbn; eexists;
      rewrite <- !app_assoc; reflexivity.
  - cbn. eexists. rewrite <- app_assoc. reflexivity.
Qed.

Lemma zoom_init (csv : option (list csv_row)) : zoom (init csv) = -8.
Proof.
  unfold init. destruct csv as [rows|]; [|reflexivity].
  destruct (generate_points_from_csv rows 2.5) as [points pops].
  destruct points as [|p points]; [reflexivity|].
  destruct (compute_population_colors_prints pops
              (load_points (p :: points) pops new_frame)) as [lines H].
  destruct (compute_population_colors pops
              (load_points (p :: points) pops new_frame)) as [f1 [e|colors]];
    simpl in H; subst f1; reflexivity.
Qed.

Lemma on_mouse_wheel_zoom (ev : event) (f : EarthViewerFrame) :
  zoom (on_mouse_wheel ev f) =
    Rmax (Rmin (if num_is ev 5 || Z.eqb (ev_delta ev) (-120)
                then zoom f - 0.1
                else if num_is ev 4 || Z.eqb (ev_delta ev) 120
                     then zoom f + 0.1
                     else zoom f)
               (-1.0))
         (-50.0).
Proof.
  unfold on_mouse_wheel.
  destruct (num_is ev 5 || Z.eqb (ev_delta ev) (-120));
    [reflexivity|].
  destruct (num_is ev 4 || Z.eqb (ev_delta ev) 120); reflexivity.
Qed.

Lemma clamp_in_range (z : R) : -50 <= Rmax (Rmin z (-1.0)) (-50.0) <= -1.
Proof.
  split.
  - etransitivity; [|apply Rmax_r]. lra.
  - apply Rmax_lub; [etransitivity; [apply Rmin_r|lra]|lra].
Qed.

Lemma clamp_inside (z : R) : -50 <= z <= -1 -> Rmax (Rmin z (-1.0)) (-50.0) = z.
Proof.
  intros Hz. rewrite Rmin_left by lra. apply Rmax_left. lra.
Qed.

Lemma on_mouse_wheel_in_range (ev : event) (f : EarthViewerFrame) :
  -50 <= zoom (on_mouse_wheel ev f) <= -1.
Proof. rewrite on_mouse_wheel_zoom. apply clamp_in_range. Qed.

Lemma on_mouse_drag_zoom (ev : event) (f : EarthViewerFrame) :
  zoom (on_mouse_drag ev f) = zoom f.
Proof. unfold on_mouse_drag. destruct (is_dragging f); reflexivity. Qed.

Lemma dispatch_zoom_in_range (f : EarthViewerFrame) (e : ui_event) :
  -50 <= zoom f <= -1 -> -50 <= zoom (dispatch f e) <= -1.
Proof.
  intros Hz. destruct e as [ev|ev|ev|ev]; simpl.
  - exact Hz.
  - exact Hz.
  - rewrite on_mouse_drag_zoom. exact Hz.
  - apply on_mouse_wheel_in_range.
Qed.

Lemma run_zoom_in_range (events : list ui_event) (f : EarthViewerFrame) :
  -50 <= zoom f <= -1 -> -50 <= zoom (run events f) <= -1.
Proof.
  unfold run. revert f.
  induction events as [|e events IH]; intros f Hz; simpl.
  - exact Hz.
  - apply IH, dispatch_zoom_in_range, Hz.
Qed.

(** C6: a frame starts with zoom -8; after every wheel event the zoom
    lies in [-50,-1], whatever the frame was, and so it does after every
    finite sequence of events starting from the initial frame; a wheel
    notch the handler recognises moves the zoom by 0.1 (down for button 5
    or delta -120, up for button 4 or delta 120) before the clamp. *)
Theorem zoom_stays_in_range :
  (forall csv, zoom (init csv) = -8)
  /\ (forall ev f, -50 <= zoom (on_mouse_wheel ev f) <= -1)
  /\ (forall csv events, -50 <= zoom (run events (init csv)) <= -1)
  /\ (forall ev f,
        num_is ev 5 || Z.eqb (ev_delta ev) (-120) = true ->
        zoom (on_mouse_wheel ev f) = Rmax (Rmin (zoom f - 0.1) (-1.0)) (-50.0))
  /\ (forall ev f,
        num_is ev 5 || Z.eqb (ev_delta ev) (-120) = false ->
        num_is ev 4 || Z.eqb (ev_delta ev) 120 = true ->
        zoom (on_mouse_wheel ev f) = Rmax (Rmin (zoom f + 0.1) (-1.0)) (-50.0)).
Proof.
  split; [exact zoom_init|].
  split; [exact on_mouse_wheel_in_range|].
  split.
  - intros csv events. apply run_zoom_in_range. rewrite zoom_init. lra.
  - split; intros ev f; rewrite on_mouse_wheel_zoom.
    + intros ->. reflexivity.
    + intros -> ->. reflexivity.
Qed.

Lemma zoom_stays_in_range_witness :
  let notch_out := {| ev_x := 0; ev_y := 0; ev_num := None; ev_delta := -120 |} in
  zoom (on_mouse_wheel notch_out new_frame) = -8.1
  /\ -50 <= zoom (run (repeat (MouseWheel notch_out) 3) (init None)) <= -1.
Proof.
  intros notch_out.
  destruct zoom_stays_in_range as [_ [_ [Hrun [Hout _]]]].
  split.
  - rewrite (Hout notch_out new_frame eq_refl).
    change (zoom new_frame) with (-8). rewrite clamp_inside; lra.
  - apply Hrun.
Defined.

Lemma on_mouse_drag_active (ev : event) (f : EarthViewerFrame) :
  is_dragging f = true ->
  rotation_angle_y (on_mouse_drag ev f) =
    rotation_angle_y f + IZR (ev_x ev - fst (last_mouse_pos f)) * 0.5
  /\ rotation_angle_x (on_mouse_drag ev f) =
       rotation_angle_x f + IZR (ev_y ev - snd (last_mouse_pos f)) * 0.5
  /\ last_mouse_pos (on_mouse_drag ev f) = (ev_x ev, ev_y ev)
  /\ is_dragging (on_mouse_drag ev f) = true.
Proof.
  intros Hd. unfold on_mouse_drag. rewrite Hd. cbn.
  repeat split. exact Hd.
Qed.

Lemma on_mouse_drag_idle (ev : event) (f : EarthViewerFrame) :
  is_dragging f = false -> on_mouse_drag ev f = f.
Proof. intros Hd. unfold on_mouse_drag. rewrite Hd. reflexivity. Qed.

(** C7: while a drag is active, a drag event at (px,py) adds
    0.5 * (px - last x) to the cloud Y-rotation and 0.5 * (py - last y)
    to the cloud X-rotation, where the last position is that of the
    press or drag event handled just before it (so the second of two
    consecutive drag events counts from the first, not from the press);
    a drag event while no drag is active leaves the frame, and so both
    angles, unchanged. *)
Theorem drag_rotates_by_last_delta (ev : event) (f : EarthViewerFrame) :
  (is_dragging f = true ->
   rotation_angle_y (on_mouse_drag ev f) =
     rotation_angle_y f + IZR (ev_x ev - fst (last_mouse_pos f)) * 0.5
   /\ rotation_angle_x (on_mouse_drag ev f) =
        rotation_angle_x f + IZR (ev_y ev - snd (last_mouse_pos f)) * 0.5
   /\ (forall next,
         rotation_angle_y (on_mouse_drag next (on_mouse_drag ev f)) =
           rotation_angle_y (on_mouse_drag ev f)
           + IZR (ev_x next - ev_x ev) * 0.5
         /\ rotation_angle_x (on_mouse_drag next (on_mouse_drag ev f)) =
              rotation_angle_x (on_mouse_drag ev f)
              + IZR (ev_y next - ev_y ev) * 0.5))
  /\ (forall press,
        rotation_angle_y (on_mouse_drag ev (on_mouse_press press f)) =
          rotation_angle_y f + IZR (ev_x ev - ev_x press) * 0.5
        /\ rotation_angle_x (on_mouse_drag ev (on_mouse_press press f)) =
             rotation_angle_x f + IZR (ev_y ev - ev_y press) * 0.5)
  /\ (is_dragging f = false ->
      on_mouse_drag ev f = f
      /\ rotation_angle_x (on_mouse_drag ev f) = rotation_angle_x f
      /\ rotation_angle_y (on_mouse_drag ev f) = rotation_angle_y f).
Proof.
  split; [|split].
  - intros Hd.
    destruct (on_mouse_drag_active ev f Hd) as [Hy [Hx [Hlast Hd']]].
    split; [exact Hy|]. split; [exact Hx|].
    intros next.
    destruct (on_mouse_drag_active next _ Hd') as [Hy' [Hx' _]].
    rewrite Hy', Hx', Hlast. split; reflexivity.
  - intros press.
    destruct (on_mouse_drag_active ev (on_mouse_press press f) eq_refl)
      as [Hy [Hx _]].
    rewrite Hy, Hx. split; reflexivity.
  - intros Hd. rewrite (on_mouse_drag_idle ev f Hd). repeat split.
Qed.

Lemma drag_rotates_by_last_delta_witness :
  let at_ x y := {| ev_x := x; ev_y := y; ev_num := None; ev_delta := 0 |} in
  let pressed := on_mouse_press (at_ 10 10)%Z new_frame in
  is_dragging pressed = true
  /\ is_dragging new_frame = false
  /\ rotation_angle_y (on_mouse_drag (at_ 30 14)%Z pressed) = 10
  /\ rotation_angle_x (on_mouse_drag (at_ 30 14)%Z pressed) = 2
  /\ rotation_angle_y
       (on_mouse_drag (at_ 31 14)%Z (on_mouse_drag (at_ 30 14)%Z pressed)) = 10.5
  /\ on_mouse_drag (at_ 30 14)%Z new_frame = new_frame.
Proof.
  intros at_ pressed.
  destruct (drag_rotates_by_last_delta (at_ 30 14)%Z pressed)
    as [Hactive _].
  destruct (Hactive eq_refl) as [Hy [Hx Hnext]].
  destruct (Hnext (at_ 31 14)%Z) as [Hy' _].
  destruct (drag_rotates_by_last_delta (at_ 30 14)%Z new_frame)
    as [_ [_ Hidle]].
  destruct (Hidle eq_refl) as [Hsame _].
  split; [reflexivity|]. split; [reflexivity|].
  split; [rewrite Hy; cbn; lra|].
  split; [rewrite Hx; cbn; lra|].
  split; [rewrite Hy', Hy; cbn; lra|].
  exact Hsame.
Defined.

(** ** SceneComposer *)

Lemma redraw_gl_framebuffer (f : EarthViewerFrame) (g : gl_state) :
  let prefix :=
    cloud_transform (zoom f) (rotation_angle_x f) (rotation_angle_y f) in
  framebuffer (redraw_gl f g) =
    SphereDrawn
      (with_sphere_rotation prefix (sphere_rotation_x f) (sphere_rotation_y f)
         (sphere_rotation_z f))
      2.5 (texture_2d g)
    :: (if has_points f
        then [PointsDrawn prefix (points_vbo f) (colors_vbo f) (point_count f)
                false]
        else []).
Proof.
  unfold redraw_gl, has_points.
  destruct (points_vbo f) as [pts|]; [destruct (Nat.ltb 0 (point_count f))|];
    reflexivity.
Qed.

Lemma redraw_gl_modelview (f : EarthViewerFrame) (g : gl_state) :
  modelview (redraw_gl f g) =
    cloud_transform (zoom f) (rotation_angle_x f) (rotation_angle_y f)
  /\ matrix_stack (redraw_gl f g) = matrix_stack g.
Proof.
  unfold redraw_gl.
  destruct (points_vbo f) as [pts|]; [destruct (Nat.ltb 0 (point_count f))|];
    split; reflexivity.
Qed.

Lemma sphere_transform_of_redraw (f : EarthViewerFrame) (g : gl_state) :
  sphere_transform_of (framebuffer (redraw_gl f g)) =
    Some (with_sphere_rotation
            (cloud_transform (zoom f) (rotation_angle_x f) (rotation_angle_y f))
            (sphere_rotation_x f) (sphere_rotation_y f) (sphere_rotation_z f)).
Proof. rewrite redraw_gl_framebuffer. reflexivity. Qed.

Lemma points_transform_of_redraw (f : EarthViewerFrame) (g : gl_state) :
  points_transform_of (framebuffer (redraw_gl f g)) =
    if has_points f
    then Some (cloud_transform (zoom f) (rotation_angle_x f) (rotation_angle_y f))
    else None.
Proof.
  rewrite redraw_gl_framebuffer. cbn [points_transform_of].
  destruct (has_points f); reflexivity.
Qed.

Lemma rotation_0 (x y z : R) : rotation 0 x y z = mat_identity.
Proof.
  unfold rotation. rewrite radians_0, cos_0, sin_0. mat_eq.
Qed.

Lemma rotation_y_180 :
  rotation 180 0 1 0 = ((-1, 0, 0, 0), (0, 1, 0, 0), (0, 0, -1, 0), (0, 0, 0, 1)).
Proof.
  unfold rotation. rewrite radians_180, cos_PI, sin_PI. mat_eq.
Qed.

Lemma rotation_x_90 :
  rotation 90 1 0 0 = ((1, 0, 0, 0), (0, 0, -1, 0), (0, 1, 0, 0), (0, 0, 0, 1)).
Proof.
  unfold rotation.
  replace (radians 90) with (PI / 2) by (unfold radians; lra).
  rewrite cos_PI2, sin_PI2. mat_eq.
Qed.

Lemma rotation_z_270 :
  rotation 270 0 0 1 = ((0, 1, 0, 0), (-1, 0, 0, 0), (0, 0, 1, 0), (0, 0, 0, 1)).
Proof.
  unfold rotation.
  replace (radians 270) with (3 * (PI / 2)) by (unfold radians; lra).
  rewrite cos_3PI2, sin_3PI2. mat_eq.
Qed.

(** The claim of C9 fails in its second half: dragging the cloud half a
    turn about Y (a press at pixel 0 and a drag to pixel 360, from the
    initial frame) changes the matrix the sphere is drawn under, the
    sphere's own rotation and the zoom being the same. *)
Lemma cloud_rotation_moves_sphere :
  let at_ x := {| ev_x := x; ev_y := 0; ev_num := None; ev_delta := 0 |} in
  let dragged := on_mouse_drag (at_ 360%Z) (on_mouse_press (at_ 0%Z) new_frame) in
  rotation_angle_y dragged = 180
  /\ sphere_rotation_x dragged = sphere_rotation_x new_frame
  /\ sphere_rotation_y dragged = sphere_rotation_y new_frame
  /\ sphere_rotation_z dragged = sphere_rotation_z new_frame
  /\ zoom dragged = zoom new_frame
  /\ sphere_transform_of (framebuffer (redraw_gl dragged initgl))
     <> sphere_transform_of (framebuffer (redraw_gl new_frame initgl)).
Proof.
  intros at_ dragged.
  assert (Hy : rotation_angle_y dragged = 180) by (cbn; lra).
  split; [exact Hy|].
  do 4 (split; [reflexivity|]).
  assert (Hx : rotation_angle_x dragged = 0) by (cbn; lra).
  rewrite !sphere_transform_of_redraw. rewrite Hy, Hx.
  change (zoom dragged) with (-8).
  change (sphere_rotation_x dragged) with 90.
  change (sphere_rotation_y dragged) with 0.
  change (sphere_rotation_z dragged) with 270.
  change (rotation_angle_x new_frame) with 0.
  change (rotation_angle_y new_frame) with 0.
  change (zoom new_frame) with (-8).
  change (sphere_rotation_x new_frame) with 90.
  change (sphere_rotation_y new_frame) with 0.
  change (sphere_rotation_z new_frame) with 270.
  unfold with_sphere_rotation, cloud_transform.
  rewrite !rotation_0, rotation_y_180, rotation_x_90, rotation_z_270.
  unfold mmul, row_mul, dot4, col0, col1, col2, col3, mat_identity, translation.
  intros H. injection H. intros. lra.
Qed.

(** C9 (amended): in a frame the sphere is drawn under the shared
    prefix (zoom translation, cloud rotation X then Y) followed by its
    own rotation X, Y, Z, and the point cloud under the shared prefix
    alone, which is also the matrix left current, the matrix stack being
    as before.  So the sphere's rotation does not affect the transform of
    the point cloud, while the cloud rotation, being in the prefix, is
    part of both transforms. *)
Theorem redraw_transforms (f : EarthViewerFrame) (g : gl_state) :
  let prefix :=
    cloud_transform (zoom f) (rotation_angle_x f) (rotation_angle_y f) in
  sphere_transform_of (framebuffer (redraw_gl f g)) =
    Some (with_sphere_rotation prefix (sphere_rotation_x f)
            (sphere_rotation_y f) (sphere_rotation_z f))
  /\ (has_points f = true ->
      points_transform_of (framebuffer (redraw_gl f g)) = Some prefix)
  /\ (forall x y z,
        points_transform_of
          (framebuffer
             (redraw_gl
                (set_sphere_rotation_z z
                   (set_sphere_rotation_y y (set_sphere_rotation_x x f))) g))
        = points_transform_of (framebuffer (redraw_gl f g)))
  /\ modelview (redraw_gl f g) = prefix
  /\ matrix_stack (redraw_gl f g) = matrix_stack g.
Proof.
  intros prefix.
  split; [apply sphere_transform_of_redraw|].
  split; [intros Hp; rewrite points_transform_of_redraw, Hp; reflexivity|].
  split; [intros x y z; rewrite !points_transform_of_redraw; reflexivity|].
  apply redraw_gl_modelview.
Qed.

Lemma redraw_transforms_witness :
  let f := load_points [project 0 0 2.5] [100] new_frame in
  has_points f = true
  /\ points_transform_of (framebuffer (redraw_gl f initgl)) =
       Some (cloud_transform (-8) 0 0).
Proof.
  intros f. split; [reflexivity|].
  destruct (redraw_transforms f initgl) as [_ [H _]].
  exact (H eq_refl).
Defined.

(** ** Heatmap settings *)

Lemma redraw_keeps_settings (f : EarthViewerFrame) :
  color_scheme (fst (redraw f)) = color_scheme f
  /\ use_logarithmic (fst (redraw f)) = use_logarithmic f.
Proof. split; reflexivity. Qed.

Lemma recompute_keeps_settings (p : list R) (f : EarthViewerFrame) :
  let f' :=
    fst ((colors <-- compute_population_colors p ;;
          _ <-- modify (set_colors_vbo (Some colors)) ;;
          redraw) f) in
  color_scheme f' = color_scheme f /\ use_logarithmic f' = use_logarithmic f.
Proof.
  unfold abind.
  destruct (compute_population_colors_prints p f) as [lines H].
  destruct (compute_population_colors p f) as [f1 [e|colors]];
    simpl in H; subst f1; split; reflexivity.
Qed.

Lemma update_heatmap_settings_no_data (scheme : option string)
  (logarithmic : option bool) (f : EarthViewerFrame) :
  populations f = None ->
  update_heatmap_settings scheme logarithmic f =
    (set_use_logarithmic
       (match logarithmic with Some b => b | None => use_logarithmic f end)
       (set_color_scheme
          (match scheme with Some s => s | None => color_scheme f end) f),
     ok tt).
Proof.
  intros Hp. unfold update_heatmap_settings, abind, modify, gets, ret.
  destruct scheme as [s|], logarithmic as [b|]; cbn; rewrite Hp;
    try reflexivity; destruct f; reflexivity.
Qed.

(** C10: [update_heatmap_settings] called without a scheme leaves the
    colour scheme as it was, and called without a logarithmic flag leaves
    the flag as it was; on a frame that loaded no point data it returns
    normally having set at most these two fields: the colours, the
    drawn frame and the printed output are untouched, so nothing was
    recomputed and nothing redrawn. *)
Theorem update_heatmap_settings_absent (scheme : option string)
  (logarithmic : option bool) (f : EarthViewerFrame) :
  let f' := fst (update_heatmap_settings scheme logarithmic f) in
  (scheme = None -> color_scheme f' = color_scheme f)
  /\ (logarithmic = None -> use_logarithmic f' = use_logarithmic f)
  /\ (populations f = None ->
      update_heatmap_settings scheme logarithmic f =
        (set_use_logarithmic
           (match logarithmic with Some b => b | None => use_logarithmic f end)
           (set_color_scheme
              (match scheme with Some s => s | None => color_scheme f end) f),
         ok tt)
      /\ colors_vbo f' = colors_vbo f
      /\ gl f' = gl f
      /\ stdout f' = stdout f
      /\ populations f' = None).
Proof.
  intros f'. split; [|split].
  - intros ->. subst f'.
    unfold update_heatmap_settings.
    unfold abind at 1. unfold ret at 1. cbv iota beta.
    unfold abind at 1.
    destruct logarithmic as [b|]; cbn [modify ret];
      cbv iota beta; unfold abind at 1, gets; cbv iota beta;
      cbn [populations set_use_logarithmic];
      (destruct (populations f) as [p|]; [|reflexivity]).
    + apply (recompute_keeps_settings p (set_use_logarithmic b f)).
    + apply (recompute_keeps_settings p f).
  - intros ->. subst f'.
    unfold update_heatmap_settings.
    unfold abind at 1.
    destruct scheme as [s|]; cbn [modify ret];
      cbv iota beta; unfold abind at 1, ret at 1; cbv iota beta;
      unfold abind at 1, gets; cbv iota beta;
      cbn [populations set_color_scheme].
    + destruct (populations f) as [p|]; [|reflexivity].
      apply (recompute_keeps_settings p (set_color_scheme s f)).
    + destruct (populations f) as [p|]; [|reflexivity].
      apply (recompute_keeps_settings p f).
  - intros Hp. subst f'.
    rewrite (update_heatmap_settings_no_data scheme logarithmic f Hp).
    split; [reflexivity|]. cbn. repeat split. exact Hp.
Qed.

Lemma update_heatmap_settings_absent_witness :
  populations new_frame = None
  /\ fst (update_heatmap_settings None None new_frame) = new_frame
  /\ color_scheme (fst (update_heatmap_settings None (Some false) new_frame))
     = "plasma"%string
  /\ use_logarithmic (fst (update_heatmap_settings (Some "hot"%string) None new_frame))
     = true.
Proof.
  split; [reflexivity|].
  destruct (update_heatmap_settings_absent None None new_frame)
    as [_ [_ Hnone]].
  destruct (Hnone eq_refl) as [Heq _].
  destruct (update_heatmap_settings_absent None (Some false) new_frame)
    as [Hscheme _].
  destruct (update_heatmap_settings_absent (Some "hot"%string) None new_frame)
    as [_ [Hlog _]].
  split; [rewrite Heq; reflexivity|].
  split; [exact (Hscheme eq_refl)|exact (Hlog eq_refl)].
Defined.

(** * Further properties *)

(** ** Projection *)

Lemma radians_colatitude (lat : R) : radians (90 - lat) = PI / 2 - radians lat.
Proof. unfold radians. lra. Qed.

Lemma radians_bounds (lat : R) :
  -90 <= lat <= 90 -> - (PI / 2) <= radians lat <= PI / 2.
Proof.
  intros H. unfold radians. pose proof PI_RGT_0 as Hpi. split; nra.
Qed.

(** X1: in terms of the latitude itself the projected point is
    (-r cos(lat) cos(lon), r sin(lat), r cos(lat) sin(lon)), angles in
    degrees: the second coordinate is the height above the equatorial
    plane. *)
Theorem project_by_latitude (lat lon radius : R) :
  project lat lon radius =
    (- radius * cos (radians lat) * cos (radians lon),
     radius * sin (radians lat),
     radius * cos (radians lat) * sin (radians lon)).
Proof.
  unfold project. cbv zeta.
  rewrite radians_colatitude, sin_shift, cos_shift. reflexivity.
Qed.

Lemma height_project (lat lon radius : R) :
  height (project lat lon radius) = radius * sin (radians lat).
Proof.
  unfold project, height. cbn [fst snd].
  rewrite radians_colatitude, cos_shift. reflexivity.
Qed.

(** X2: for a positive radius the height of the projected point grows
    strictly with the latitude over [-90,90], whatever the longitudes;
    it is 0 on the equator, so positive north of it and negative south
    of it. *)
Theorem project_height_increasing (lat1 lat2 lon1 lon2 radius : R) :
  0 < radius ->
  -90 <= lat1 -> lat1 < lat2 -> lat2 <= 90 ->
  height (project lat1 lon1 radius) < height (project lat2 lon2 radius)
  /\ height (project 0 lon1 radius) = 0
  /\ (0 < lat2 -> 0 < height (project lat2 lon2 radius))
  /\ (lat1 < 0 -> height (project lat1 lon1 radius) < 0).
Proof.
  intros Hr H1 H12 H2.
  assert (Hmono : forall a b, -90 <= a -> a < b -> b <= 90 ->
                              sin (radians a) < sin (radians b)).
  { intros a b Ha Hab Hb.
    pose proof (radians_bounds a ltac:(lra)) as [Ha1 Ha2].
    pose proof (radians_bounds b ltac:(lra)) as [Hb1 Hb2].
    apply sin_increasing_1; try assumption.
    unfold radians. pose proof PI_RGT_0. nra. }
  assert (H0 : sin (radians 0) = 0) by (rewrite radians_0; apply sin_0).
  rewrite !height_project.
  split; [|split; [|split]].
  - apply Rmult_lt_compat_l; [exact Hr|]. apply Hmono; assumption.
  - rewrite H0. ring.
  - intros Hpos. pose proof (Hmono 0 lat2 ltac:(lra) Hpos H2). nra.
  - intros Hneg. pose proof (Hmono lat1 0 H1 Hneg ltac:(lra)). nra.
Qed.

Lemma project_height_increasing_witness :
  height (project (-45) 180 2.5) < height (project 30 0 2.5)
  /\ 0 < height (project 30 0 2.5)
  /\ height (project (-45) 180 2.5) < 0.
Proof.
  destruct (project_height_increasing (-45) 30 180 0 2.5
              ltac:(lra) ltac:(lra) ltac:(lra) ltac:(lra))
    as [Hlt [_ [Hn Hs]]].
  split; [exact Hlt|]. split; [apply Hn; lra|apply Hs; lra].
Defined.

(** X3: the projection has period 360 in the longitude, and the point
    at the opposite latitude and the longitude half a turn away is the
    antipode: every coordinate changes sign. *)
Theorem project_period_antipode (lat lon radius : R) :
  project lat (lon + 360) radius = project lat lon radius
  /\ project (- lat) (lon + 180) radius = negate (project lat lon radius).
Proof.
  split.
  - unfold project. cbv zeta.
    replace (radians (lon + 360)) with (radians lon + 2 * PI)
      by (unfold radians; lra).
    rewrite cos_plus, sin_plus, cos_2PI, sin_2PI.
    repeat (apply pair_equal_spec; split); ring.
  - unfold project, negate. cbv zeta.
    replace (radians (90 - - lat)) with (PI - radians (90 - lat))
      by (unfold radians; lra).
    replace (radians (lon + 180)) with (radians lon + PI)
      by (unfold radians; lra).
    rewrite sin_PI_x, neg_cos, neg_sin.
    replace (cos (PI - radians (90 - lat))) with (- cos (radians (90 - lat))).
    + repeat (apply pair_equal_spec; split); ring.
    + replace (PI - radians (90 - lat)) with (- radians (90 - lat) + PI) by lra.
      rewrite neg_cos, cos_neg. reflexivity.
Qed.

(** ** Ingestion *)


Lemma generate_points_from_csv_located (rows : list csv_row) (radius : R) :
  Forall2
    (fun row p => exists lat lon,
       row_lat row = Some lat /\ row_lon row = Some lon
       /\ p = project lat lon radius)
    (filter located rows) (fst (generate_points_from_csv rows radius))
  /\ snd (generate_points_from_csv rows radius) =
       map row_pop (filter located rows).
Proof.
  induction rows as [|row rows [IHp IHq]].
  - split; [constructor|reflexivity].
  - cbn [generate_points_from_csv filter].
    destruct (generate_points_from_csv rows radius) as [points pops].
    cbn [fst snd] in IHp, IHq.
    destruct (row_lat row) as [lat|] eqn:Hlat;
      [|replace (located row) with false by (unfold located; now rewrite Hlat);
        split; assumption].
    destruct (row_lon row) as [lon|] eqn:Hlon;
      [|replace (located row) with false
          by (unfold located; now rewrite Hlat, Hlon);
        split; assumption].
    replace (located row) with true by (unfold located; now rewrite Hlat, Hlon).
    cbn [fst snd map]. split.
    + constructor; [now exists lat, lon|exact IHp].
    + f_equal. exact IHq.
Qed.

(** X4: [generate_points_from_csv] keeps exactly the rows whose latitude
    and longitude were both read, in order: the i-th point is the
    projection of the i-th such row and the i-th population is that
    row's, so the two lists have the same length; every point is at
    distance |radius| from the origin. *)
Theorem generate_points_from_csv_parallel (rows : list csv_row) (radius : R) :
  let points := fst (generate_points_from_csv rows radius) in
  let populations := snd (generate_points_from_csv rows radius) in
  Forall2
    (fun row p => exists lat lon,
       row_lat row = Some lat /\ row_lon row = Some lon
       /\ p = project lat lon radius)
    (filter located rows) points
  /\ populations = map row_pop (filter located rows)
  /\ List.length points = List.length populations
  /\ List.length points = List.length (filter located rows)
  /\ Forall (fun p => norm3 p = Rabs radius) points.
Proof.
  intros points populations.
  destruct (generate_points_from_csv_located rows radius) as [Hp Hq].
  fold points in Hp. fold populations in Hq.
  assert (Hlen : List.length points = List.length (filter located rows))
    by (symmetry; eapply Forall2_length; exact Hp).
  split; [exact Hp|]. split; [exact Hq|].
  split; [rewrite Hq, length_map; exact Hlen|].
  split; [exact Hlen|].
  apply Forall_forall. intros p Hin.
  apply (generated_points_on_sphere rows radius p Hin).
Qed.

Section IngestionProperties.

Variable float_of_string : string -> option R.

Lemma find_population_unusable (columns : list string) (row : raw_row) :
  (forall c, In c columns ->
             forall p, ~ usable_population float_of_string row c p) ->
  find_population float_of_string columns row = 0.
Proof.
  induction columns as [|c columns IH]; intros Hno; simpl; [reflexivity|].
  assert (IH' : find_population float_of_string columns row = 0)
    by (apply IH; intros c' Hc'; apply Hno; now right).
  destruct (row_get c row) as [[s|]|] eqn:Hget; try exact IH'.
  destruct (nonempty s) eqn:Hne; [|exact IH'].
  destruct (float_of_string s) as [pop|] eqn:Hf; [|exact IH'].
  exfalso. apply (Hno c (or_introl eq_refl) pop). now exists s.
Qed.

Lemma find_population_usable (c : string) (post : list string)
  (row : raw_row) (pop : R) :
  usable_population float_of_string row c pop ->
  find_population float_of_string (c :: post) row = pop.
Proof.
  intros [s [Hget [Hne Hf]]]. simpl. rewrite Hget, Hne, Hf. reflexivity.
Qed.

Lemma find_population_skip (c : string) (post : list string) (row : raw_row) :
  (forall p, ~ usable_population float_of_string row c p) ->
  find_population float_of_string (c :: post) row =
    find_population float_of_string post row.
Proof.
  intros Hno. simpl.
  destruct (row_get c row) as [[s|]|] eqn:Hget; try reflexivity.
  destruct (nonempty s) eqn:Hne; [|reflexivity].
  destruct (float_of_string s) as [pop|] eqn:Hf; [|reflexivity].
  exfalso. apply (Hno pop). now exists s.
Qed.

(** X5: the population of a row is the value of the first column, in
    the order searched, that is present, not empty and readable as a
    float: a column that is absent, [None], empty or unreadable is
    passed over; when no column qualifies the population is 0.  The
    method searches Population, population, POPULATION, Pop, pop. *)
Theorem find_population_first_usable (columns : list string) (row : raw_row) :
  (forall pre c post pop,
      columns = pre ++ c :: post ->
      (forall c', In c' pre ->
                  forall p, ~ usable_population float_of_string row c' p) ->
      usable_population float_of_string row c pop ->
      find_population float_of_string columns row = pop)
  /\ ((forall c, In c columns ->
                 forall p, ~ usable_population float_of_string row c p) ->
      find_population float_of_string columns row = 0).
Proof.
  split; [|apply find_population_unusable].
  intros pre c post pop -> Hpre Hc.
  induction pre as [|c' pre IH]; simpl app.
  - apply find_population_usable, Hc.
  - rewrite find_population_skip by (apply Hpre; now left).
    apply IH. intros c'' Hin. apply Hpre. now right.
Qed.

End IngestionProperties.

Lemma find_population_first_usable_witness :
  let float_of_string (s : string) :=
    if String.eqb s "8000000" then Some 8000000 else None in
  let row : raw_row :=
    [("Latitude", Some "51.5"); ("Population", Some "");
     ("population", Some "n/a"); ("POPULATION", Some "8000000");
     ("pop", None)]%string in
  usable_population float_of_string row "POPULATION" 8000000
  /\ find_population float_of_string population_columns row = 8000000.
Proof.
  intros float_of_string row.
  assert (Hu : usable_population float_of_string row "POPULATION" 8000000)
    by (exists "8000000"%string; repeat split).
  split; [exact Hu|].
  destruct (find_population_first_usable float_of_string population_columns row)
    as [Hfirst _].
  apply (Hfirst ["Population"; "population"]%string "POPULATION"%string
                ["Pop"; "pop"]%string 8000000 eq_refl); [|exact Hu].
  intros c' [<-|[<-|[]]] p [s [Hget [Hne Hf]]]; cbn in Hget;
    injection Hget as <-; cbn in Hne, Hf; discriminate.
Defined.

Section RowProperties.

Variable float_of_string : string -> option R.

Lemma parse_row_complete (row : raw_row) :
  complete_row row ->
  exists r, parse_row float_of_string row = Some r
            /\ located r = reads_point float_of_string row.
Proof.
  intros [Hlat Hlon]. unfold parse_row, reads_point, float_field.
  destruct (row_get "Latitude" row) as [[s|]|];
    [|contradiction|eexists; split; reflexivity].
  destruct (float_of_string s) as [lat|];
    [|eexists; split; reflexivity].
  destruct (row_get "Longitude" row) as [[t|]|];
    [|contradiction|eexists; split; reflexivity].
  destruct (float_of_string t) as [lon|]; eexists; split; reflexivity.
Qed.

Lemma parse_rows_complete (rows : list raw_row) :
  Forall complete_row rows ->
  exists rs, parse_rows float_of_string rows = Some rs
             /\ map located rs = map (reads_point float_of_string) rows.
Proof.
  induction 1 as [|row rows Hrow _ [rs [IH IHloc]]]; simpl.
  - exists []. split; reflexivity.
  - destruct (parse_row_complete row Hrow) as [r [Hr Hloc]].
    rewrite Hr, IH. exists (r :: rs). split; [reflexivity|].
    simpl. now rewrite Hloc, IHloc.
Qed.

Lemma filter_length_map {A B : Type} (p : A -> bool) (q : B -> bool)
  (l : list A) (m : list B) :
  map p l = map q m ->
  List.length (filter p l) = List.length (filter q m).
Proof.
  revert m. induction l as [|a l IH]; intros [|b m] H; simpl in *;
    try discriminate; [reflexivity|].
  injection H as Hab Hlm. rewrite Hab.
  destruct (q b); simpl; [f_equal|]; apply IH, Hlm.
Qed.

Lemma parse_rows_type_error (rows : list raw_row) (row : raw_row) :
  In row rows ->
  parse_row float_of_string row = None ->
  parse_rows float_of_string rows = None.
Proof.
  induction rows as [|r rows IH]; intros Hin Hrow; [destruct Hin|].
  simpl. destruct Hin as [->|Hin].
  - rewrite Hrow. reflexivity.
  - destruct (parse_row float_of_string r); [|reflexivity].
    rewrite (IH Hin Hrow). reflexivity.
Qed.

(** X6: on a file none of whose rows has a coordinate left [None] the
    method returns, with one point and one population for each row both
    of whose coordinates are read as floats, the other rows being
    dropped; a row whose Latitude is [None] (a short line) makes the
    whole method fail with the uncaught TypeError, whatever the other
    rows hold. *)
Theorem generate_points_from_rows_outcome (rows : list raw_row) (radius : R) :
  (Forall complete_row rows ->
   exists points populations,
     generate_points_from_rows float_of_string rows radius =
       Some (points, populations)
     /\ List.length points =
          List.length (filter (reads_point float_of_string) rows)
     /\ List.length populations = List.length points)
  /\ (forall row,
        In row rows -> row_get "Latitude" row = Some None ->
        generate_points_from_rows float_of_string rows radius = None).
Proof.
  split.
  - intros Hc. unfold generate_points_from_rows.
    destruct (parse_rows_complete rows Hc) as [rs [Hrs Hloc]].
    rewrite Hrs.
    destruct (generate_points_from_csv_located rs radius) as [Hpts Hpops].
    destruct (generate_points_from_csv rs radius) as [points pops].
    cbn [fst snd] in *.
    assert (Hcount : List.length points = List.length (filter located rs))
      by (symmetry; eapply Forall2_length; exact Hpts).
    assert (Hlen : List.length points = List.length pops)
      by (rewrite Hpops, length_map; exact Hcount).
    exists points, pops. split; [reflexivity|].
    split; [|symmetry; exact Hlen].
    rewrite Hcount. apply filter_length_map, Hloc.
  - intros row Hin Hlat. unfold generate_points_from_rows.
    rewrite (parse_rows_type_error rows row Hin); [reflexivity|].
    unfold parse_row, float_field. rewrite Hlat. reflexivity.
Qed.

End RowProperties.

Lemma generate_points_from_rows_outcome_witness :
  let float_of_string (s : string) :=
    if String.eqb s "51.5" then Some 51.5
    else if String.eqb s "0" then Some 0 else None in
  let london : raw_row :=
    [("Latitude", Some "51.5"); ("Longitude", Some "0")]%string in
  let broken : raw_row :=
    [("Latitude", Some "north"); ("Longitude", Some "0")]%string in
  let short : raw_row := [("Latitude", None); ("Longitude", None)]%string in
  Forall complete_row [london; broken]
  /\ generate_points_from_rows float_of_string [london; broken] 2.5 =
       Some ([project 51.5 0 2.5], [0])
  /\ generate_points_from_rows float_of_string [london; short] 2.5 = None.
Proof.
  intros float_of_string london broken short.
  assert (Hc : Forall complete_row [london; broken])
    by (repeat constructor; cbn; discriminate).
  split; [exact Hc|].
  destruct (generate_points_from_rows_outcome float_of_string
              [london; short] 2.5) as [_ Herr].
  destruct (generate_points_from_rows_outcome float_of_string
              [london; broken] 2.5) as [Hok _].
  destruct (Hok Hc) as [points [pops [Hres _]]].
  split; [reflexivity|].
  apply (Herr short); [right; left; reflexivity|reflexivity].
Defined.

(** ** Normalisation *)

Lemma normalize_values_by_range (values : list R) (min_pop max_pop : R) :
  is_min (filter positive values) min_pop ->
  is_max (filter positive values) max_pop ->
  normalize_values values =
    ok (if Rltb min_pop max_pop
        then map (fun t => Rmax 0 ((t - min_pop) / (max_pop - min_pop))) values
        else zeros_like values).
Proof.
  intros Hmin Hmax.
  destruct (normalize_values_cases values)
    as [[Hnone _]|[mn [mx [Hmin' [Hmax' Hcase]]]]].
  - rewrite Hnone in Hmin. destruct Hmin as [[] _].
  - rewrite (is_min_unique _ _ _ Hmin Hmin'), (is_max_unique _ _ _ Hmax Hmax').
    destruct Hcase as [[Heq Hout]|[Hlt Hout]]; rewrite Hout.
    + replace (Rltb mn mx) with false; [reflexivity|].
      symmetry. apply Rltb_false. lra.
    + replace (Rltb mn mx) with true; [reflexivity|].
      symmetry. apply Rltb_true. exact Hlt.
Qed.

Lemma normalize_values_none (values : list R) :
  filter positive values = [] ->
  normalize_values values = ok (zeros_like values).
Proof.
  intros Hnone.
  destruct (normalize_values_cases values)
    as [[_ Hout]|[mn [_ [Hmin _]]]]; [exact Hout|].
  rewrite Hnone in Hmin. destruct Hmin as [[] _].
Qed.

(** The normalisation applies one non-decreasing function to every
    scaled value. *)
Lemma normalize_values_pointwise (values : list R) :
  exists G : R -> R,
    (forall a b, a <= b -> G a <= G b)
    /\ normalize_values values = ok (map G values).
Proof.
  destruct (normalize_values_cases values)
    as [[_ Hout]|[mn [mx [_ [_ [[_ Hout]|[Hlt Hout]]]]]]].
  - exists (fun _ => 0). split; [intros; lra|exact Hout].
  - exists (fun _ => 0). split; [intros; lra|exact Hout].
  - exists (fun t => Rmax 0 ((t - mn) / (mx - mn))). split; [|exact Hout].
    intros a b Hab. apply Rle_max_compat_l.
    apply Rmult_le_compat_r; [|lra].
    left. apply Rinv_0_lt_compat. lra.
Qed.

Lemma in_combine_map {A B : Type} (F : A -> B) (l : list A) (a : A) (b : B) :
  In (a, b) (combine l (map F l)) -> In a l /\ b = F a.
Proof.
  induction l as [|x l IH]; simpl; [intros []|].
  intros [H|H].
  - injection H as <- <-. split; [now left|reflexivity].
  - destruct (IH H) as [Hin Hb]. split; [now right|exact Hb].
Qed.

Lemma in_combine_map_intro {A B : Type} (F : A -> B) (l : list A) (a : A) :
  In a l -> In (a, F a) (combine l (map F l)).
Proof.
  induction l as [|x l IH]; simpl; [intros []|].
  intros [->|H]; [now left|right; apply IH, H].
Qed.

(** X7: the normalisation preserves the order of the populations: of
    two points, the one with the larger population never gets the
    smaller normalised value, with or without logarithmic scaling (the
    populations being above -1 in logarithmic mode). *)
Theorem normalized_pops_monotone (use_logarithmic : bool) (populations : list R) :
  (use_logarithmic = true -> Forall (fun p => -1 < p) populations) ->
  exists out,
    normalized_pops use_logarithmic populations = ok out
    /\ forall p q o o',
         In (p, o) (combine populations out) ->
         In (q, o') (combine populations out) ->
         p <= q -> o <= o'.
Proof.
  intros Hdom. unfold normalized_pops.
  rewrite (pop_values_in_domain _ _ Hdom). simpl bind.
  destruct use_logarithmic.
  - specialize (Hdom eq_refl). rewrite Forall_forall in Hdom.
    destruct (normalize_values_pointwise
                (map (fun v => ln (1 + v)) populations)) as [G [Hmono Hout]].
    rewrite Hout, map_map. eexists. split; [reflexivity|].
    intros p q o o' Hp Hq Hpq.
    apply in_combine_map in Hp. destruct Hp as [Hpin ->].
    apply in_combine_map in Hq. destruct Hq as [Hqin ->].
    apply Hmono.
    destruct (Req_dec p q) as [->|Hne]; [lra|].
    left. apply ln_increasing; [specialize (Hdom p Hpin); lra|lra].
  - destruct (normalize_values_pointwise populations) as [G [Hmono Hout]].
    rewrite Hout. eexists. split; [reflexivity|].
    intros p q o o' Hp Hq Hpq.
    apply in_combine_map in Hp. destruct Hp as [_ ->].
    apply in_combine_map in Hq. destruct Hq as [_ ->].
    apply Hmono, Hpq.
Qed.

Lemma normalized_pops_monotone_witness :
  exists out,
    normalized_pops true [100; 0; 1000000] = ok out
    /\ forall o o',
         In (100, o) (combine [100; 0; 1000000] out) ->
         In (1000000, o') (combine [100; 0; 1000000] out) ->
         o <= o'.
Proof.
  assert (Hdom : true = true -> Forall (fun p => -1 < p) [100; 0; 1000000])
    by (intros _; repeat constructor; lra).
  destruct (normalized_pops_monotone true [100; 0; 1000000] Hdom)
    as [out [Hout Hmono]].
  exists out. split; [exact Hout|].
  intros o o' Ho Ho'. apply (Hmono 100 1000000 o o' Ho Ho'). lra.
Defined.

(** X8: when the positive scaled values are not all equal, the
    normalised value 1 goes to the greatest scaled value and to no
    other, and the normalised value 0 to exactly the scaled values at or
    below the least positive one; both 0 and 1 occur in the output. *)
Theorem normalized_pops_extremes (use_logarithmic : bool)
  (populations values : list R) (min_pop max_pop : R) :
  pop_values use_logarithmic populations = ok values ->
  is_min (filter positive values) min_pop ->
  is_max (filter positive values) max_pop ->
  min_pop <> max_pop ->
  exists out,
    normalized_pops use_logarithmic populations = ok out
    /\ In 0 out /\ In 1 out
    /\ forall t o,
         In (t, o) (combine values out) ->
         (o = 1 <-> t = max_pop) /\ (o = 0 <-> t <= min_pop).
Proof.
  intros Hpv Hmin Hmax Hne.
  assert (Hle : min_pop <= max_pop) by (apply Hmax, Hmin).
  assert (Hlt : min_pop < max_pop) by lra.
  unfold normalized_pops. rewrite Hpv. simpl bind.
  rewrite (normalize_values_by_range values min_pop max_pop Hmin Hmax).
  replace (Rltb min_pop max_pop) with true
    by (symmetry; apply Rltb_true; exact Hlt).
  set (d := max_pop - min_pop).
  assert (Hd : 0 < d) by (unfold d; lra).
  assert (Hq : forall t, (t - min_pop) / d * d = t - min_pop)
    by (intros t; field; lra).
  assert (Hone : Rmax 0 ((max_pop - min_pop) / d) = 1).
  { unfold d. replace ((max_pop - min_pop) / (max_pop - min_pop)) with 1
      by (field; lra).
    apply Rmax_right. lra. }
  assert (Hzero : Rmax 0 ((min_pop - min_pop) / d) = 0).
  { rewrite Rmax_left; [reflexivity|]. unfold Rdiv. rewrite Rminus_diag. lra. }
  assert (Hvalid_le : forall t, In t values -> t <= max_pop).
  { intros t Ht. destruct (Rlt_dec 0 t) as [Hpos|Hneg].
    - apply Hmax, in_valid. now split.
    - destruct Hmin as [Hin _]. apply in_valid in Hin. lra. }
  assert (Hdd : d = max_pop - min_pop) by reflexivity.
  clearbody d.
  eexists. split; [reflexivity|]. split; [|split].
  - destruct Hmin as [Hin _]. apply in_valid in Hin. destruct Hin as [Hin _].
    apply in_map_iff. exists min_pop. split; [exact Hzero|exact Hin].
  - destruct Hmax as [Hin _]. apply in_valid in Hin. destruct Hin as [Hin _].
    apply in_map_iff. exists max_pop. split; [exact Hone|exact Hin].
  - intros t o Hin.
    apply (in_combine_map (fun t => Rmax 0 ((t - min_pop) / d))) in Hin.
    destruct Hin as [Ht ->]. specialize (Hq t).
    pose proof (Hvalid_le t Ht) as Htle.
    split; split.
    + intros H1. unfold Rmax in H1.
      destruct (Rle_dec 0 ((t - min_pop) / d)); [|lra]. nra.
    + intros ->. exact Hone.
    + intros H0. unfold Rmax in H0.
      destruct (Rle_dec 0 ((t - min_pop) / d)); [nra|nra].
    + intros Hlow. apply Rmax_left. nra.
Qed.

Lemma normalized_pops_extremes_witness :
  exists out,
    normalized_pops false [1; 2] = ok out /\ In 0 out /\ In 1 out.
Proof.
  assert (H1 : positive 1 = true) by (apply positive_true; lra).
  assert (H2 : positive 2 = true) by (apply positive_true; lra).
  assert (Hf : filter positive [1; 2] = [1; 2])
    by (simpl; rewrite H1, H2; reflexivity).
  assert (Hmin : is_min (filter positive [1; 2]) 1).
  { rewrite Hf. split; [now left|]. intros x [<-|[<-|[]]]; lra. }
  assert (Hmax : is_max (filter positive [1; 2]) 2).
  { rewrite Hf. split; [now right; left|]. intros x [<-|[<-|[]]]; lra. }
  destruct (normalized_pops_extremes false [1; 2] [1; 2] 1 2 eq_refl Hmin Hmax
              ltac:(lra)) as [out [Hout [H0 [Hone _]]]].
  exists out. split; [exact Hout|]. split; [exact H0|exact Hone].
Defined.

Lemma positive_scaled (k t : R) : 0 < k -> positive (k * t) = positive t.
Proof.
  intros Hk. unfold positive.
  destruct (Rltb 0 t) eqn:E.
  - apply Rltb_true in E. apply Rltb_true. nra.
  - apply Rltb_false in E. apply Rltb_false. nra.
Qed.

Lemma filter_positive_scaled (k : R) (l : list R) :
  0 < k ->
  filter positive (map (Rmult k) l) = map (Rmult k) (filter positive l).
Proof.
  intros Hk. induction l as [|t l IH]; simpl; [reflexivity|].
  rewrite (positive_scaled k t Hk).
  destruct (positive t); simpl; now rewrite IH.
Qed.

Lemma is_min_scaled (k : R) (l : list R) (m : R) :
  0 < k -> is_min l m -> is_min (map (Rmult k) l) (k * m).
Proof.
  intros Hk [Hin Hle]. split.
  - apply in_map, Hin.
  - intros x Hx. apply in_map_iff in Hx. destruct Hx as [t [<- Ht]].
    specialize (Hle t Ht). nra.
Qed.

Lemma is_max_scaled (k : R) (l : list R) (m : R) :
  0 < k -> is_max l m -> is_max (map (Rmult k) l) (k * m).
Proof.
  intros Hk [Hin Hle]. split.
  - apply in_map, Hin.
  - intros x Hx. apply in_map_iff in Hx. destruct Hx as [t [<- Ht]].
    specialize (Hle t Ht). nra.
Qed.

(** X9: without logarithmic scaling the normalised values do not depend
    on the unit of the populations: multiplying every population by the
    same positive factor gives the same output. *)
Theorem normalized_pops_scale_invariant (k : R) (populations : list R) :
  0 < k ->
  normalized_pops false (map (Rmult k) populations) =
    normalized_pops false populations.
Proof.
  intros Hk. unfold normalized_pops, pop_values. simpl bind.
  destruct (filter positive populations) as [|v vs] eqn:Hvalid.
  - rewrite (normalize_values_none populations Hvalid).
    rewrite normalize_values_none
      by (rewrite (filter_positive_scaled k _ Hk), Hvalid; reflexivity).
    unfold zeros_like. now rewrite map_map.
  - assert (Hne : filter positive populations <> [])
      by (rewrite Hvalid; discriminate).
    destruct (amin_is_min _ Hne) as [mn [_ Hmin]].
    destruct (amax_is_max _ Hne) as [mx [_ Hmax]].
    rewrite (normalize_values_by_range populations mn mx Hmin Hmax).
    rewrite (normalize_values_by_range (map (Rmult k) populations)
               (k * mn) (k * mx))
      by (rewrite (filter_positive_scaled k _ Hk);
          first [apply is_min_scaled|apply is_max_scaled]; assumption).
    assert (Hle : mn <= mx) by (apply Hmax, Hmin).
    destruct (Rltb mn mx) eqn:E.
    + apply Rltb_true in E.
      replace (Rltb (k * mn) (k * mx)) with true
        by (symmetry; apply Rltb_true; nra).
      rewrite map_map. f_equal. apply map_ext. intros t.
      f_equal. field. split; nra.
    + apply Rltb_false in E.
      replace (Rltb (k * mn) (k * mx)) with false
        by (symmetry; apply Rltb_false; nra).
      unfold zeros_like. now rewrite map_map.
Qed.

Lemma normalized_pops_scale_invariant_witness :
  normalized_pops false (map (Rmult 1000) [1; 2]) = ok [0; 1].
Proof.
  rewrite (normalized_pops_scale_invariant 1000 [1; 2]) by lra.
  exact normalized_pops_reaches_one.
Defined.

(** ** Colour maps *)

Lemma chroma_mix_bounds (c f : R) :
  0 <= c -> 0 <= f < 2 -> 0 <= c * (1 - Rabs (f - 1)) <= c.
Proof.
  intros Hc Hf.
  assert (Hx : 0 <= 1 - Rabs (f - 1) <= 1)
    by (unfold Rabs; destruct (Rcase_abs (f - 1)); lra).
  split; nra.
Qed.

Lemma Rmax3_eq (a b c v : R) :
  a <= v -> b <= v -> c <= v -> a = v \/ b = v \/ c = v ->
  Rmax a (Rmax b c) = v.
Proof.
  intros Ha Hb Hc Hv. apply Rle_antisym.
  - repeat apply Rmax_lub; assumption.
  - destruct Hv as [<-|[<-|<-]].
    + apply Rmax_l.
    + etransitivity; [apply Rmax_l|apply Rmax_r].
    + etransitivity; [apply Rmax_r|apply Rmax_r].
Qed.

Lemma Rmin3_eq (a b c v : R) :
  v <= a -> v <= b -> v <= c -> a = v \/ b = v \/ c = v ->
  Rmin a (Rmin b c) = v.
Proof.
  intros Ha Hb Hc Hv. apply Rle_antisym.
  - destruct Hv as [<-|[<-|<-]].
    + apply Rmin_l.
    + etransitivity; [apply Rmin_r|apply Rmin_l].
    + etransitivity; [apply Rmin_r|apply Rmin_r].
  - repeat apply Rmin_glb; assumption.
Qed.

(** X10: for a saturation and a value in [0,1] and any hue, the three
    components [hsv_to_rgb] returns lie between v (1 - s) and v, the
    greatest of them being v and the least v (1 - s). *)
Theorem hsv_to_rgb_range (h s v : R) :
  in_unit s -> in_unit v ->
  let '(r, g, b) := hsv_to_rgb h s v in
  (v * (1 - s) <= r <= v /\ v * (1 - s) <= g <= v /\ v * (1 - s) <= b <= v)
  /\ Rmax r (Rmax g b) = v
  /\ Rmin r (Rmin g b) = v * (1 - s).
Proof.
  unfold in_unit. intros Hs Hv. unfold hsv_to_rgb.
  set (h' := fmod h 360).
  pose proof (fmod_bounds (h' / 60) 2 ltac:(lra)) as Hf.
  set (f := fmod (h' / 60) 2) in *.
  assert (Hc : 0 <= v * s) by nra.
  pose proof (chroma_mix_bounds (v * s) f Hc Hf) as Hx.
  set (x := v * s * (1 - Rabs (f - 1))) in *.
  set (c := v * s) in *.
  assert (Hm : v - c = v * (1 - s)) by (unfold c; ring).
  assert (Hcv : c <= v) by (unfold c; nra).
  clearbody x c.
  repeat sector_case; rewrite <- Hm;
    (split; [lra|]);
    (split; [apply Rmax3_eq|apply Rmin3_eq]);
    first [lra | left; lra | right; left; lra | right; right; lra].
Qed.

Lemma hsv_to_rgb_range_witness :
  let '(r, g, b) := hsv_to_rgb 200 0.5 0.8 in
  Rmax r (Rmax g b) = 0.8 /\ Rmin r (Rmin g b) = 0.8 * (1 - 0.5).
Proof.
  pose proof (hsv_to_rgb_range 200 0.5 0.8) as H.
  destruct (hsv_to_rgb 200 0.5 0.8) as [[r g] b].
  apply H; unfold in_unit; lra.
Defined.

Lemma fmod_add_multiple (a m : R) (k : Z) :
  m <> 0 -> fmod (a + m * IZR k) m = fmod a m.
Proof.
  intros Hm. unfold fmod.
  replace ((a + m * IZR k) / m) with (a / m + IZR k) by (field; exact Hm).
  rewrite Zfloor_addz, plus_IZR. ring.
Qed.

(** X11: [hsv_to_rgb] has period 360 in the hue: adding any whole
    number of turns, forwards or backwards, gives the same colour. *)
Theorem hsv_to_rgb_hue_period (h s v : R) (k : Z) :
  hsv_to_rgb (h + 360 * IZR k) s v = hsv_to_rgb h s v.
Proof.
  unfold hsv_to_rgb. rewrite fmod_add_multiple by lra. reflexivity.
Qed.

Lemma fmod_shift (a m : R) (k : Z) :
  0 < m -> m * IZR k <= a < m * (IZR k + 1) -> fmod a m = a - m * IZR k.
Proof.
  intros Hm [Hlo Hhi]. unfold fmod.
  assert (Hq : a / m * m = a) by (field; lra).
  rewrite (Zfloor_eq k (a / m)); [reflexivity|].
  split; nra.
Qed.

Lemma rainbow_unfold (v x : R) :
  0 <= v <= 1 ->
  1.0 * 1.0 * (1 - Rabs (fmod (v * 300 / 60) 2 - 1)) = x ->
  rainbow v =
    (let '(r, g, b) :=
       if Rleb 0 (v * 300) && Rltb (v * 300) 60 then (1, x, 0)
       else if Rleb 60 (v * 300) && Rltb (v * 300) 120 then (x, 1, 0)
       else if Rleb 120 (v * 300) && Rltb (v * 300) 180 then (0, 1, x)
       else if Rleb 180 (v * 300) && Rltb (v * 300) 240 then (0, x, 1)
       else if Rleb 240 (v * 300) && Rltb (v * 300) 300 then (x, 0, 1)
       else (1, 0, x) in
     (r, g, b, 0.9)).
Proof.
  intros Hv Hx. unfold rainbow, hsv_to_rgb.
  rewrite (fmod_small (v * 300) 360) by lra.
  rewrite Hx.
  repeat sector_case; rgba_eq.
Qed.

(** X12: over [0,1] the rainbow map runs through five linear ramps of
    width 0.2: red to yellow, yellow to green, green to cyan, cyan to
    blue and blue to magenta, which it reaches at 1; the hue never wraps
    round to red. *)
Theorem rainbow_ramps (v : R) :
  in_unit v ->
  (v < 0.2 -> rainbow v = (1, 5 * v, 0, 0.9))
  /\ (0.2 <= v < 0.4 -> rainbow v = (2 - 5 * v, 1, 0, 0.9))
  /\ (0.4 <= v < 0.6 -> rainbow v = (0, 1, 5 * v - 2, 0.9))
  /\ (0.6 <= v < 0.8 -> rainbow v = (0, 4 - 5 * v, 1, 0.9))
  /\ (0.8 <= v -> rainbow v = (5 * v - 4, 0, 1, 0.9)).
Proof.
  unfold in_unit. intros Hv.
  assert (Hmix : forall (k : Z) (x : R),
             2 * IZR k <= v * 300 / 60 < 2 * (IZR k + 1) ->
             1 - Rabs (v * 300 / 60 - 2 * IZR k - 1) = x ->
             1.0 * 1.0 * (1 - Rabs (fmod (v * 300 / 60) 2 - 1)) = x).
  { intros k x Hk <-. rewrite (fmod_shift _ 2 k) by (try lra; exact Hk). lra. }
  repeat split; intros Hseg.
  - rewrite (rainbow_unfold v (5 * v) Hv).
    + repeat sector_case; try lra; rgba_eq.
    + apply (Hmix 0%Z); [lra|].
      unfold Rabs. destruct (Rcase_abs _); lra.
  - rewrite (rainbow_unfold v (2 - 5 * v) Hv).
    + repeat sector_case; try lra; rgba_eq.
    + apply (Hmix 0%Z); [lra|].
      unfold Rabs. destruct (Rcase_abs _); lra.
  - rewrite (rainbow_unfold v (5 * v - 2) Hv).
    + repeat sector_case; try lra; rgba_eq.
    + apply (Hmix 1%Z); [lra|].
      unfold Rabs. destruct (Rcase_abs _); lra.
  - rewrite (rainbow_unfold v (4 - 5 * v) Hv).
    + repeat sector_case; try lra; rgba_eq.
    + apply (Hmix 1%Z); [lra|].
      unfold Rabs. destruct (Rcase_abs _); lra.
  - rewrite (rainbow_unfold v (5 * v - 4) Hv).
    + repeat sector_case; try lra; rgba_eq.
    + apply (Hmix 2%Z); [lra|].
      unfold Rabs. destruct (Rcase_abs _); lra.
Qed.

Lemma rainbow_ramps_witness :
  rainbow 0 = (1, 5 * 0, 0, 0.9) /\ rainbow 1 = (5 * 1 - 4, 0, 1, 0.9).
Proof.
  assert (H0 : in_unit 0) by (unfold in_unit; lra).
  assert (H1 : in_unit 1) by (unfold in_unit; lra).
  destruct (rainbow_ramps 0 H0) as [Hred _].
  destruct (rainbow_ramps 1 H1) as [_ [_ [_ [_ Hmagenta]]]].
  split; [apply Hred; lra|apply Hmagenta; lra].
Defined.

(** X13: the hot map is monotone: a larger value never gets a smaller
    red, green, blue or alpha component, so a denser point is never
    drawn darker or more transparent. *)
Theorem hot_monotone (v w : R) : v <= w -> rgba_le (hot v) (hot w).
Proof.
  intros Hvw. unfold hot, rgba_le. cmp_cases; lra.
Qed.

Lemma hot_monotone_witness : rgba_le (hot 0.2) (hot 0.7).
Proof. apply hot_monotone. lra. Defined.

(** X14: whatever the scheme name, a normalised value that is not
    negative is given an alpha between 0.7 and 1: no point is drawn more
    than 30% transparent. *)
Theorem alpha_bounds (color_scheme : string) (v : R) :
  0 <= v -> 0.7 <= alpha (color_of color_scheme v) <= 1.
Proof.
  intros Hv. unfold color_of.
  destruct (String.eqb color_scheme "plasma");
    [unfold plasma; cmp_cases; simpl; lra|].
  destruct (String.eqb color_scheme "viridis");
    [unfold viridis; cmp_cases; simpl; lra|].
  destruct (String.eqb color_scheme "hot");
    [unfold hot; cmp_cases; simpl; lra|].
  destruct (String.eqb color_scheme "cool"); [unfold cool; simpl; lra|].
  destruct (String.eqb color_scheme "rainbow").
  - unfold rainbow. destruct (hsv_to_rgb (v * 300) 1.0 1.0) as [[r g] b].
    simpl. lra.
  - unfold green_red. simpl. lra.
Qed.

Lemma alpha_bounds_witness : 0.7 <= alpha (color_of "hot" 0) <= 1.
Proof. apply (alpha_bounds "hot" 0). lra. Defined.

(** X15: the plasma map has no jumps in colour: between two values its
    red, green and blue components each change by at most twice the
    difference of the values. *)
Theorem plasma_lipschitz (v w : R) :
  v <= w -> rgb_within (2 * (w - v)) (plasma v) (plasma w).
Proof.
  intros Hvw. unfold plasma, rgb_within.
  cmp_cases; repeat split;
    unfold Rabs; destruct (Rcase_abs _); lra.
Qed.

Lemma plasma_lipschitz_witness :
  rgb_within (2 * (0.5 - 0.2)) (plasma 0.2) (plasma 0.5).
Proof. apply plasma_lipschitz. lra. Defined.

(** ** Recomputing the colours *)

Lemma mapM_length {A B : Type} (f : A -> result B) (l : list A) (out : list B) :
  mapM f l = ok out -> List.length out = List.length l.
Proof.
  revert out. induction l as [|a l IH]; intros out; simpl.
  - intros H. injection H as <-. reflexivity.
  - destruct (f a) as [e|b]; [discriminate|]. simpl.
    destruct (mapM f l) as [e|bs]; [discriminate|]. simpl.
    intros H. injection H as <-. simpl. f_equal. now apply IH.
Qed.

Lemma pop_values_length (use_logarithmic : bool) (populations values : list R) :
  pop_values use_logarithmic populations = ok values ->
  List.length values = List.length populations.
Proof.
  unfold pop_values. destruct use_logarithmic.
  - apply mapM_length.
  - intros H. injection H as <-. reflexivity.
Qed.

Lemma normalized_pops_length (use_logarithmic : bool)
  (populations out : list R) :
  normalized_pops use_logarithmic populations = ok out ->
  List.length out = List.length populations.
Proof.
  unfold normalized_pops.
  destruct (pop_values use_logarithmic populations) as [e|values] eqn:Hpv;
    [discriminate|].
  simpl bind. intros Hout.
  destruct (normalize_values_total values) as [out' [Hout' Hlen]].
  rewrite Hout in Hout'. injection Hout' as <-.
  rewrite Hlen. apply (pop_values_length _ _ _ Hpv).
Qed.

(** What a successful recomputation returns. *)
Lemma compute_population_colors_value (populations : list R)
  (f : EarthViewerFrame) (colors : list rgba) :
  snd (compute_population_colors populations f) = ok colors ->
  exists normalized,
    normalized_pops (use_logarithmic f) populations = ok normalized
    /\ colors = generate_color_scheme (color_scheme f) normalized.
Proof.
  unfold compute_population_colors, abind, print, modify, gets, lift, ret.
  cbn.
  destruct (pop_values (use_logarithmic f) populations) as [e|values] eqn:Hpv;
    [discriminate|].
  destruct (normalize_values values) as [e|normalized] eqn:Hnv;
    [discriminate|].
  assert (Hn : normalized_pops (use_logarithmic f) populations = ok normalized)
    by (unfold normalized_pops; rewrite Hpv; simpl bind; exact Hnv).
  destruct (amin populations) as [e|lo]; [discriminate|].
  destruct (amax populations) as [e|hi]; [discriminate|].
  cbn.
  destruct (use_logarithmic f).
  - destruct (amin values) as [e|lo']; [discriminate|].
    destruct (amax values) as [e|hi']; [discriminate|].
    cbn. intros H. injection H as <-. exists normalized. split; [exact Hn|reflexivity].
  - cbn. intros H. injection H as <-. exists normalized. split; [exact Hn|reflexivity].
Qed.

Lemma compute_population_colors_length (populations : list R)
  (f : EarthViewerFrame) (colors : list rgba) :
  snd (compute_population_colors populations f) = ok colors ->
  List.length colors = List.length populations.
Proof.
  intros H. destruct (compute_population_colors_value _ _ _ H)
    as [normalized [Hn ->]].
  unfold generate_color_scheme. rewrite length_map.
  apply (normalized_pops_length _ _ _ Hn).
Qed.

(** On a population array that is not empty and in the domain of the
    scaling, the recomputation succeeds and only prints. *)
Lemma compute_population_colors_succeeds (populations : list R)
  (f : EarthViewerFrame) :
  populations <> [] ->
  (use_logarithmic f = true -> Forall (fun p => -1 < p) populations) ->
  exists normalized lines,
    normalized_pops (use_logarithmic f) populations = ok normalized
    /\ compute_population_colors populations f =
         (set_stdout (stdout f ++ lines) f,
          ok (generate_color_scheme (color_scheme f) normalized)).
Proof.
  intros Hne Hdom.
  destruct (compute_population_colors_prints populations f) as [lines Hf].
  pose proof (compute_population_colors_value populations f) as Hval.
  assert (Hok : exists colors,
             snd (compute_population_colors populations f) = ok colors).
  { pose proof (pop_values_in_domain _ _ Hdom) as Hpv.
    pose proof (pop_values_length _ _ _ Hpv) as Hlen.
    set (values := if use_logarithmic f
                   then map (fun v => ln (1 + v)) populations
                   else populations) in *.
    destruct (normalize_values_total values) as [normalized [Hnorm _]].
    destruct populations as [|p ps]; [congruence|].
    destruct values as [|t ts]; [discriminate|].
    unfold compute_population_colors, abind, print, modify, gets, lift, ret.
    cbn. rewrite Hpv. cbn. rewrite Hnorm. cbn.
    destruct (use_logarithmic f); cbn; eexists; reflexivity. }
  destruct Hok as [colors Hok].
  destruct (Hval colors Hok) as [normalized [Hn ->]].
  exists normalized, lines. split; [exact Hn|].
  destruct (compute_population_colors populations f) as [f1 r].
  cbn [fst snd] in Hf, Hok. subst f1 r. reflexivity.
Qed.

(** X16: on a population array that is not empty (and above -1 in
    logarithmic mode) the recomputation returns one colour per
    population, namely the colour map of the frame's scheme applied to
    the normalised populations; it changes nothing in the frame but the
    printed output, to which it adds the count line, the range line
    with the least and greatest population and, in logarithmic mode
    only, the scaled range line with the least and greatest scaled
    value. *)
Theorem compute_population_colors_result (populations : list R)
  (f : EarthViewerFrame) :
  populations <> [] ->
  (use_logarithmic f = true -> Forall (fun p => -1 < p) populations) ->
  exists values normalized lo hi lo' hi',
    pop_values (use_logarithmic f) populations = ok values
    /\ normalized_pops (use_logarithmic f) populations = ok normalized
    /\ is_min populations lo /\ is_max populations hi
    /\ is_min values lo' /\ is_max values hi'
    /\ compute_population_colors populations f =
         (set_stdout
            (stdout f
             ++ ComputingColors (List.length populations)
                :: PopulationRange lo hi
                :: (if use_logarithmic f
                    then [LogScaledRange lo' hi']
                    else [])) f,
          ok (generate_color_scheme (color_scheme f) normalized))
    /\ List.length (generate_color_scheme (color_scheme f) normalized) =
         List.length populations.
Proof.
  intros Hne Hdom.
  pose proof (pop_values_in_domain _ _ Hdom) as Hpv.
  set (values := if use_logarithmic f
                 then map (fun v => ln (1 + v)) populations
                 else populations) in *.
  destruct (normalize_values_total values) as [normalized [Hnorm Hlen]].
  destruct (amin_is_min _ Hne) as [lo [Hlo Hmin]].
  destruct (amax_is_max _ Hne) as [hi [Hhi Hmax]].
  assert (Hvne : values <> []).
  { unfold values. destruct (use_logarithmic f); [|exact Hne].
    destruct populations; [congruence|discriminate]. }
  destruct (amin_is_min _ Hvne) as [lo' [Hlo' Hmin']].
  destruct (amax_is_max _ Hvne) as [hi' [Hhi' Hmax']].
  assert (Hn : normalized_pops (use_logarithmic f) populations = ok normalized)
    by (unfold normalized_pops; rewrite Hpv; simpl bind; exact Hnorm).
  exists values, normalized, lo, hi, lo', hi'.
  split; [exact Hpv|]. split; [exact Hn|].
  split; [exact Hmin|]. split; [exact Hmax|].
  split; [exact Hmin'|]. split; [exact Hmax'|].
  split.
  - unfold compute_population_colors, abind, print, modify, gets, lift, ret.
    cbn. rewrite Hpv. cbn. rewrite Hnorm, Hlo, Hhi. cbn.
    destruct (use_logarithmic f).
    + rewrite Hlo', Hhi'. cbn. rewrite <- !app_assoc. reflexivity.
    + cbn. rewrite <- !app_assoc. reflexivity.
  - unfold generate_color_scheme. rewrite length_map.
    apply (normalized_pops_length _ _ _ Hn).
Qed.

Lemma compute_population_colors_result_witness :
  exists normalized,
    compute_population_colors [1; 2] new_frame =
      (set_stdout
         [ComputingColors 2; PopulationRange 1 2;
          LogScaledRange (ln (1 + 1)) (ln (1 + 2))] new_frame,
       ok (generate_color_scheme "plasma" normalized)).
Proof.
  assert (Hdom : use_logarithmic new_frame = true ->
                 Forall (fun p => -1 < p) [1; 2])
    by (intros _; repeat constructor; lra).
  destruct (compute_population_colors_result [1; 2] new_frame)
    as [values [normalized [lo [hi [lo' [hi'
         [Hpv [_ [Hmin [Hmax [Hmin' [Hmax' [Hres _]]]]]]]]]]]]].
  - discriminate.
  - exact Hdom.
  - exists normalized.
    rewrite (pop_values_in_domain _ _ Hdom) in Hpv.
    cbn [use_logarithmic new_frame map] in Hpv, Hres.
    injection Hpv as <-.
    assert (Hlt : ln (1 + 1) < ln (1 + 2)) by (apply ln_increasing; lra).
    assert (Hlo : lo = 1).
    { apply (is_min_unique [1; 2]); [exact Hmin|].
      split; [now left|]. intros x [<-|[<-|[]]]; lra. }
    assert (Hhi : hi = 2).
    { apply (is_max_unique [1; 2]); [exact Hmax|].
      split; [now right; left|]. intros x [<-|[<-|[]]]; lra. }
    assert (Hlo' : lo' = ln (1 + 1)).
    { apply (is_min_unique [ln (1 + 1); ln (1 + 2)]); [exact Hmin'|].
      split; [now left|]. intros x [<-|[<-|[]]]; lra. }
    assert (Hhi' : hi' = ln (1 + 2)).
    { apply (is_max_unique [ln (1 + 1); ln (1 + 2)]); [exact Hmax'|].
      split; [now right; left|]. intros x [<-|[<-|[]]]; lra. }
    subst lo hi lo' hi'. exact Hres.
Defined.

(** X17: on an empty population array the recomputation prints its
    count line and then fails in the range line, on the least element of
    an empty array; no colours are returned. *)
Theorem compute_population_colors_empty (f : EarthViewerFrame) :
  compute_population_colors [] f =
    (set_stdout (stdout f ++ [ComputingColors 0]) f, raise EmptyReduction).
Proof.
  unfold compute_population_colors, abind, print, modify, gets, lift, ret.
  cbn. destruct (use_logarithmic f); reflexivity.
Qed.

(** ** Changing the settings *)

Lemma update_heatmap_settings_unfold (scheme : option string)
  (logarithmic : option bool) (f : EarthViewerFrame) :
  update_heatmap_settings scheme logarithmic f =
    match populations f with
    | Some p =>
        (colors <-- compute_population_colors p ;;
         _ <-- modify (set_colors_vbo (Some colors)) ;;
         redraw) (with_settings scheme logarithmic f)
    | None => (with_settings scheme logarithmic f, ok tt)
    end.
Proof.
  unfold update_heatmap_settings, with_settings.
  destruct scheme as [s|], logarithmic as [b|];
    unfold abind at 1 2 3, modify at 1, gets, ret; cbn;
    destruct (populations f); reflexivity.
Qed.

Lemma with_settings_fields (scheme : option string)
  (logarithmic : option bool) (f : EarthViewerFrame) :
  color_scheme (with_settings scheme logarithmic f) =
    match scheme with Some s => s | None => color_scheme f end
  /\ use_logarithmic (with_settings scheme logarithmic f) =
       match logarithmic with Some b => b | None => use_logarithmic f end.
Proof. destruct scheme, logarithmic; split; reflexivity. Qed.

Lemma with_settings_keeps (scheme : option string)
  (logarithmic : option bool) (f : EarthViewerFrame) :
  points_vbo (with_settings scheme logarithmic f) = points_vbo f
  /\ populations (with_settings scheme logarithmic f) = populations f
  /\ point_count (with_settings scheme logarithmic f) = point_count f
  /\ colors_vbo (with_settings scheme logarithmic f) = colors_vbo f
  /\ zoom (with_settings scheme logarithmic f) = zoom f
  /\ rotation_angle_x (with_settings scheme logarithmic f) = rotation_angle_x f
  /\ rotation_angle_y (with_settings scheme logarithmic f) = rotation_angle_y f.
Proof. destruct scheme, logarithmic; repeat split; reflexivity. Qed.

(** The frame a successful update leaves: settings stored, output
    printed, colours replaced, frame redrawn. *)
Lemma update_heatmap_settings_with_data (scheme : option string)
  (logarithmic : option bool) (f : EarthViewerFrame) (pops : list R) :
  let scheme' := match scheme with Some s => s | None => color_scheme f end in
  let log' :=
    match logarithmic with Some b => b | None => use_logarithmic f end in
  populations f = Some pops ->
  pops <> [] ->
  (log' = true -> Forall (fun p => -1 < p) pops) ->
  exists normalized lines,
    normalized_pops log' pops = ok normalized
    /\ update_heatmap_settings scheme logarithmic f =
         (redrawn
            (set_colors_vbo (Some (generate_color_scheme scheme' normalized))
               (set_stdout (stdout f ++ lines)
                  (with_settings scheme logarithmic f))),
          ok tt).
Proof.
  intros scheme' log' Hpops Hne Hdom.
  destruct (with_settings_fields scheme logarithmic f) as [Hs Hl].
  fold scheme' in Hs. fold log' in Hl.
  assert (Hout : stdout (with_settings scheme logarithmic f) = stdout f)
    by (destruct scheme, logarithmic; reflexivity).
  set (f0 := with_settings scheme logarithmic f) in *.
  assert (Hdom0 : use_logarithmic f0 = true -> Forall (fun p => -1 < p) pops)
    by (rewrite Hl; exact Hdom).
  destruct (compute_population_colors_succeeds pops f0 Hne Hdom0)
    as [normalized [lines [Hn Hres]]].
  rewrite Hl in Hn. rewrite Hs, Hout in Hres.
  exists normalized, lines. split; [exact Hn|].
  rewrite update_heatmap_settings_unfold, Hpops. fold f0.
  unfold abind at 1. rewrite Hres.
  unfold abind, modify, redraw, redrawn. reflexivity.
Qed.

(** X18: on a frame with point data (populations above -1 when the
    logarithmic flag ends up set) [update_heatmap_settings] returns
    normally; it stores the settings given, replaces the colour array by
    the colour map of the resulting scheme applied to the populations
    normalised under the resulting flag, and redraws once, the point
    cloud being drawn with the new colours; points, populations and
    camera are as before. *)
Theorem update_heatmap_settings_recomputes (scheme : option string)
  (logarithmic : option bool) (f : EarthViewerFrame) (pops : list R) :
  let scheme' := match scheme with Some s => s | None => color_scheme f end in
  let log' :=
    match logarithmic with Some b => b | None => use_logarithmic f end in
  populations f = Some pops ->
  pops <> [] ->
  (log' = true -> Forall (fun p => -1 < p) pops) ->
  exists normalized f',
    update_heatmap_settings scheme logarithmic f = (f', ok tt)
    /\ normalized_pops log' pops = ok normalized
    /\ color_scheme f' = scheme' /\ use_logarithmic f' = log'
    /\ colors_vbo f' = Some (generate_color_scheme scheme' normalized)
    /\ points_vbo f' = points_vbo f /\ populations f' = populations f
    /\ point_count f' = point_count f
    /\ zoom f' = zoom f
    /\ rotation_angle_x f' = rotation_angle_x f
    /\ rotation_angle_y f' = rotation_angle_y f
    /\ (has_points f = true ->
        In (PointsDrawn
              (cloud_transform (zoom f) (rotation_angle_x f) (rotation_angle_y f))
              (points_vbo f)
              (Some (generate_color_scheme scheme' normalized))
              (point_count f) false)
           (framebuffer (gl f'))).
Proof.
  intros scheme' log' Hpops Hne Hdom.
  destruct (update_heatmap_settings_with_data scheme logarithmic f pops
              Hpops Hne Hdom) as [normalized [lines [Hn Hupd]]].
  fold scheme' in Hupd. fold log' in Hn.
  destruct (with_settings_fields scheme logarithmic f) as [Hs Hl].
  destruct (with_settings_keeps scheme logarithmic f)
    as [Hk1 [Hk2 [Hk3 [_ [Hk4 [Hk5 Hk6]]]]]].
  exists normalized. eexists. split; [exact Hupd|]. split; [exact Hn|].
  unfold redrawn.
  cbn [color_scheme use_logarithmic colors_vbo points_vbo populations
       point_count zoom rotation_angle_x rotation_angle_y gl
       set_gl set_colors_vbo set_stdout].
  repeat (split; [first [assumption|reflexivity]|]).
  intros Hp. rewrite redraw_gl_framebuffer.
  unfold has_points in *.
  cbn [points_vbo point_count colors_vbo zoom rotation_angle_x
       rotation_angle_y set_colors_vbo set_stdout].
  rewrite Hk1, Hk3, Hk4, Hk5, Hk6, Hp. right. left. reflexivity.
Qed.

Lemma update_heatmap_settings_recomputes_witness :
  let f := load_points [project 0 0 2.5; project 10 10 2.5] [1; 2] new_frame in
  exists f',
    update_heatmap_settings (Some "cool"%string) (Some false) f = (f', ok tt)
    /\ colors_vbo f' = Some (generate_color_scheme "cool" [0; 1]).
Proof.
  intros f.
  destruct (update_heatmap_settings_recomputes
              (Some "cool"%string) (Some false) f [1; 2] eq_refl)
    as [normalized [f' [Hupd [Hn [_ [_ [Hcolors _]]]]]]].
  - discriminate.
  - discriminate.
  - exists f'. split; [exact Hupd|].
    rewrite normalized_pops_reaches_one in Hn. injection Hn as <-.
    exact Hcolors.
Defined.

(** X19: colours do not drift.  On a frame with point data (populations
    above -1) switching to any other scheme and back to the current one,
    or toggling the logarithmic flag and toggling it back, leaves exactly
    the colour array that recomputing under the current settings
    gives. *)
Theorem settings_round_trip (f : EarthViewerFrame) (pops : list R)
  (scheme : string) :
  populations f = Some pops ->
  pops <> [] ->
  Forall (fun p => -1 < p) pops ->
  let refreshed := fst (update_heatmap_settings None None f) in
  let there := fst (update_heatmap_settings (Some scheme) None f) in
  let back :=
    fst (update_heatmap_settings (Some (color_scheme f)) None there) in
  let toggled :=
    fst (update_heatmap_settings None (Some (negb (use_logarithmic f))) f) in
  let untoggled :=
    fst (update_heatmap_settings None (Some (use_logarithmic f)) toggled) in
  colors_vbo back = colors_vbo refreshed
  /\ color_scheme back = color_scheme f
  /\ colors_vbo untoggled = colors_vbo refreshed
  /\ use_logarithmic untoggled = use_logarithmic f.
Proof.
  intros Hpops Hne Hdom refreshed there back toggled untoggled.
  assert (Hd : forall b : bool, b = true -> Forall (fun p => -1 < p) pops)
    by (intros; exact Hdom).
  (* the frame recomputed in place *)
  destruct (update_heatmap_settings_with_data None None f pops Hpops Hne
              (Hd _)) as [n0 [l0 [Hn0 H0]]].
  (* scheme there and back *)
  destruct (update_heatmap_settings_with_data (Some scheme) None f pops
              Hpops Hne (Hd _)) as [n1 [l1 [Hn1 H1]]].
  assert (Hthere : populations there = Some pops
                   /\ use_logarithmic there = use_logarithmic f).
  { unfold there. rewrite H1. split; [exact Hpops|reflexivity]. }
  destruct Hthere as [Hp1 Hl1].
  destruct (update_heatmap_settings_with_data (Some (color_scheme f)) None
              there pops Hp1 Hne (Hd _)) as [n2 [l2 [Hn2 H2]]].
  rewrite Hl1 in Hn2.
  (* flag toggled and back *)
  destruct (update_heatmap_settings_with_data
              None (Some (negb (use_logarithmic f))) f pops Hpops Hne (Hd _))
    as [n3 [l3 [Hn3 H3]]].
  assert (Hp3 : populations toggled = Some pops).
  { unfold toggled. rewrite H3. exact Hpops. }
  assert (Hs3 : color_scheme toggled = color_scheme f).
  { unfold toggled. rewrite H3. reflexivity. }
  destruct (update_heatmap_settings_with_data
              None (Some (use_logarithmic f)) toggled pops Hp3 Hne (Hd _))
    as [n4 [l4 [Hn4 H4]]].
  rewrite Hs3 in H4.
  cbv beta iota in Hn0, Hn2, Hn4.
  assert (E2 : n2 = n0) by (rewrite Hn0 in Hn2; now injection Hn2).
  assert (E4 : n4 = n0) by (rewrite Hn0 in Hn4; now injection Hn4).
  subst n2 n4.
  unfold back, untoggled, refreshed. rewrite H0, H2, H4.
  repeat split.
Qed.

Lemma settings_round_trip_witness :
  let f := load_points [project 0 0 2.5; project 10 10 2.5] [1; 2] new_frame in
  colors_vbo
    (fst (update_heatmap_settings (Some "plasma"%string) None
            (fst (update_heatmap_settings (Some "hot"%string) None f))))
  = colors_vbo (fst (update_heatmap_settings None None f)).
Proof.
  intros f.
  destruct (settings_round_trip f [1; 2] "hot" eq_refl) as [H _].
  - discriminate.
  - repeat constructor; lra.
  - exact H.
Defined.

(** ** The point cloud's arrays *)

Lemma parallel_arrays_ext (f f' : EarthViewerFrame) :
  points_vbo f' = points_vbo f ->
  populations f' = populations f ->
  colors_vbo f' = colors_vbo f ->
  point_count f' = point_count f ->
  parallel_arrays f -> parallel_arrays f'.
Proof.
  unfold parallel_arrays. intros -> -> -> ->. exact (fun H => H).
Qed.

Lemma dispatch_same_scene (f : EarthViewerFrame) (e : ui_event) :
  same_scene f (dispatch f e).
Proof.
  destruct e as [ev|ev|ev|ev]; simpl.
  - repeat split.
  - repeat split.
  - unfold on_mouse_drag. destruct (is_dragging f); repeat split.
  - unfold on_mouse_wheel.
    destruct (num_is ev 5 || Z.eqb (ev_delta ev) (-120));
      [repeat split|].
    destruct (num_is ev 4 || Z.eqb (ev_delta ev) 120); repeat split.
Qed.

Lemma parallel_arrays_new_colors (f : EarthViewerFrame) (pops : list R)
  (colors : list rgba) (out : list output_line) :
  populations f = Some pops ->
  List.length colors = List.length pops ->
  parallel_arrays f ->
  parallel_arrays (redrawn (set_colors_vbo (Some colors) (set_stdout out f))).
Proof.
  unfold parallel_arrays, redrawn. cbn. intros Hp Hlen.
  rewrite Hp. destruct (points_vbo f) as [pts|]; [|exact (fun H => H)].
  intros [Hc [Hl _]]. split; [exact Hc|]. split; [exact Hl|]. congruence.
Qed.

(** X20: the arrays of the point cloud stay parallel.  A frame as
    constructed has either no point data at all or as many populations
    as points, [point_count] of them, and as many colours whenever
    colours were computed; changing the heatmap settings, any mouse
    event and the sphere sliders keep it so. *)
Theorem parallel_arrays_invariant :
  (forall csv, parallel_arrays (init csv))
  /\ (forall scheme logarithmic f,
        parallel_arrays f ->
        parallel_arrays (fst (update_heatmap_settings scheme logarithmic f)))
  /\ (forall events f, parallel_arrays f -> parallel_arrays (run events f))
  /\ (forall x y z f,
        parallel_arrays f ->
        parallel_arrays (fst (update_sphere_rotation x y z f))).
Proof.
  split; [|split; [|split]].
  - intros [rows|]; [|unfold parallel_arrays; simpl; split; reflexivity].
    unfold init.
    destruct (generate_points_from_csv_located rows 2.5) as [Hpts Hpops].
    destruct (generate_points_from_csv rows 2.5) as [points pops].
    cbn [fst snd] in Hpts, Hpops.
    assert (Hlen : List.length pops = List.length points).
    { rewrite Hpops, length_map. eapply Forall2_length. exact Hpts. }
    destruct points as [|p points];
      [unfold parallel_arrays; simpl; split; reflexivity|].
    set (f := load_points (p :: points) pops new_frame).
    destruct (compute_population_colors_prints pops f) as [lines Hf].
    pose proof (compute_population_colors_length pops f) as Hcol.
    destruct (compute_population_colors pops f) as [f1 [e|colors]];
      cbn [fst snd] in Hf, Hcol; subst f1.
    + unfold parallel_arrays. cbn. repeat split. exact Hlen.
    + specialize (Hcol colors eq_refl).
      unfold parallel_arrays. cbn. repeat split; [exact Hlen|].
      rewrite Hcol. exact Hlen.
  - intros scheme logarithmic f Hf.
    rewrite update_heatmap_settings_unfold.
    destruct (with_settings_keeps scheme logarithmic f)
      as [Hk1 [Hk2 [Hk3 [Hk4 _]]]].
    set (f0 := with_settings scheme logarithmic f) in *.
    assert (Hf0 : parallel_arrays f0)
      by (apply (parallel_arrays_ext f f0); assumption).
    destruct (populations f) as [pops|] eqn:Hpops; [|exact Hf0].
    unfold abind at 1.
    destruct (compute_population_colors_prints pops f0) as [lines Hlines].
    pose proof (compute_population_colors_length pops f0) as Hcol.
    destruct (compute_population_colors pops f0) as [f1 [e|colors]];
      cbn [fst snd] in Hlines, Hcol; subst f1.
    + cbn [fst]. apply (parallel_arrays_ext f0); try reflexivity. exact Hf0.
    + specialize (Hcol colors eq_refl).
      unfold abind, modify, redraw. cbn [fst].
      apply (parallel_arrays_new_colors f0 pops colors); assumption.
  - intros events. unfold run.
    induction events as [|e events IH]; intros f Hf; simpl; [exact Hf|].
    apply IH.
    destruct (dispatch_same_scene f e) as [H1 [H2 [H3 [H4 _]]]].
    apply (parallel_arrays_ext f); assumption.
  - intros x y z f Hf.
    apply (parallel_arrays_ext f); try reflexivity. exact Hf.
Qed.

Lemma parallel_arrays_invariant_witness :
  parallel_arrays new_frame
  /\ parallel_arrays
       (fst (update_heatmap_settings (Some "hot"%string) None new_frame)).
Proof.
  assert (H0 : parallel_arrays new_frame)
    by (unfold parallel_arrays; simpl; split; reflexivity).
  destruct parallel_arrays_invariant as [_ [Hupd _]].
  split; [exact H0|apply Hupd; exact H0].
Defined.

(** ** Mouse gestures *)

Lemma same_scene_trans (f g h : EarthViewerFrame) :
  same_scene f g -> same_scene g h -> same_scene f h.
Proof.
  unfold same_scene. intros Hfg Hgh.
  repeat match goal with
         | H : _ /\ _ |- _ => destruct H
         end.
  repeat split; congruence.
Qed.

(** X21: mouse events steer the camera and nothing else: whatever the
    sequence of press, release, drag and wheel events, the point data,
    the colours, the heatmap settings, the sphere rotation, the drawn
    frame and the printed output are as before; in particular no mouse
    handler redraws. *)
Theorem mouse_events_keep_scene (events : list ui_event) (f : EarthViewerFrame) :
  same_scene f (run events f).
Proof.
  unfold run. revert f.
  induction events as [|e events IH]; intros f; simpl.
  - repeat split.
  - apply (same_scene_trans f (dispatch f e)).
    + apply dispatch_same_scene.
    + apply IH.
Qed.

Lemma last_cons_default {A : Type} (l : list A) (a d : A) :
  last (a :: l) d = last l a.
Proof.
  revert a d. induction l as [|b l IH]; intros a d; [reflexivity|].
  change (last (a :: b :: l) d) with (last (b :: l) d).
  rewrite !IH. reflexivity.
Qed.

Lemma drags_net (moves : list event) (f : EarthViewerFrame) :
  is_dragging f = true ->
  let f' := run (map B1Motion moves) f in
  is_dragging f' = true
  /\ last_mouse_pos f' = last (map position moves) (last_mouse_pos f)
  /\ rotation_angle_y f' =
       rotation_angle_y f
       + IZR (fst (last_mouse_pos f') - fst (last_mouse_pos f)) * 0.5
  /\ rotation_angle_x f' =
       rotation_angle_x f
       + IZR (snd (last_mouse_pos f') - snd (last_mouse_pos f)) * 0.5.
Proof.
  unfold run. revert f.
  induction moves as [|ev moves IH]; intros f Hd; cbn [map fold_left].
  - split; [exact Hd|]. split; [reflexivity|].
    rewrite !Z.sub_diag. simpl. split; ring.
  - destruct (on_mouse_drag_active ev f Hd) as [Hy [Hx [Hlast Hd']]].
    cbn [dispatch].
    destruct (IH (on_mouse_drag ev f) Hd') as [Hd'' [Hl [Hy' Hx']]].
    split; [exact Hd''|]. split.
    + rewrite Hl, Hlast. cbn [map]. rewrite last_cons_default. reflexivity.
    + rewrite Hy', Hx', Hy, Hx, Hlast. cbn [fst snd].
      rewrite !minus_IZR. split; ring.
Qed.

(** X22: a drag gesture turns the cloud by half the displacement
    between the press and the last motion event, whatever path the
    pointer took in between: the Y-rotation grows by half the horizontal
    displacement and the X-rotation by half the vertical one, and the
    drag is still active. *)
Theorem gesture_net_rotation (press : event) (moves : list event)
  (f : EarthViewerFrame) :
  let f' := gesture press moves f in
  rotation_angle_y f' =
    rotation_angle_y f
    + IZR (ev_x (last_event press moves) - ev_x press) * 0.5
  /\ rotation_angle_x f' =
       rotation_angle_x f
       + IZR (ev_y (last_event press moves) - ev_y press) * 0.5
  /\ last_mouse_pos f' = position (last_event press moves)
  /\ is_dragging f' = true.
Proof.
  unfold gesture, run. cbn [fold_left dispatch].
  destruct (drags_net moves (on_mouse_press press f) eq_refl)
    as [Hd [Hl [Hy Hx]]].
  unfold run in Hd, Hl, Hy, Hx.
  assert (Hpos : last (map position moves) (position press) =
                 position (last_event press moves)).
  { unfold last_event. clear. revert press.
    induction moves as [|ev moves IH]; intros press; [reflexivity|].
    cbn [map]. rewrite !last_cons_default. apply IH. }
  change (last_mouse_pos (on_mouse_press press f)) with (position press)
    in Hl, Hy, Hx.
  rewrite Hpos in Hl.
  rewrite Hy, Hx, Hl. cbn [position fst snd].
  repeat split. exact Hd.
Qed.

(** ** Zoom *)

Lemma frame_eta (f : EarthViewerFrame) : set_zoom (zoom f) f = f.
Proof. destruct f; reflexivity. Qed.

Lemma on_mouse_wheel_frame (ev : event) (f : EarthViewerFrame) :
  on_mouse_wheel ev f = set_zoom (zoom (on_mouse_wheel ev f)) f.
Proof.
  unfold on_mouse_wheel.
  destruct (num_is ev 5 || Z.eqb (ev_delta ev) (-120)); [reflexivity|].
  destruct (num_is ev 4 || Z.eqb (ev_delta ev) 120); reflexivity.
Qed.

Lemma on_mouse_wheel_fixed (ev : event) (f : EarthViewerFrame) :
  zoom (on_mouse_wheel ev f) = zoom f -> on_mouse_wheel ev f = f.
Proof.
  intros H. rewrite on_mouse_wheel_frame, H. apply frame_eta.
Qed.

Lemma clamp_cases (z : R) :
  Rmax (Rmin z (-1.0)) (-50.0) =
    if Rle_dec z (-1) then if Rle_dec (-50) z then z else -50 else -1.
Proof.
  unfold Rmax, Rmin.
  destruct (Rle_dec z (-1.0)), (Rle_dec z (-1)); try lra;
    [destruct (Rle_dec z (-50.0)), (Rle_dec (-50) z); lra
    |destruct (Rle_dec (-1.0) (-50.0)); lra].
Qed.

Lemma zoom_after_out (ev : event) (f : EarthViewerFrame) :
  zooms_out ev = true ->
  zoom (on_mouse_wheel ev f) = Rmax (Rmin (zoom f - 0.1) (-1.0)) (-50.0).
Proof.
  unfold zooms_out. intros H. rewrite on_mouse_wheel_zoom, H. reflexivity.
Qed.

Lemma zoom_after_in (ev : event) (f : EarthViewerFrame) :
  zooms_in ev = true ->
  zoom (on_mouse_wheel ev f) = Rmax (Rmin (zoom f + 0.1) (-1.0)) (-50.0).
Proof.
  unfold zooms_in, zooms_out. intros H. rewrite on_mouse_wheel_zoom.
  destruct (num_is ev 5 || Z.eqb (ev_delta ev) (-120)); [discriminate|].
  cbn [negb andb] in H. rewrite H. reflexivity.
Qed.

Lemma zoom_after_other (ev : event) (f : EarthViewerFrame) :
  zooms_out ev = false -> zooms_in ev = false ->
  zoom (on_mouse_wheel ev f) = Rmax (Rmin (zoom f) (-1.0)) (-50.0).
Proof.
  unfold zooms_in, zooms_out. intros Hout Hin.
  rewrite on_mouse_wheel_zoom, Hout.
  rewrite Hout in Hin. cbn [negb andb] in Hin. rewrite Hin. reflexivity.
Qed.

(** X23: the zoom limits absorb: at -1 a zoom-in notch, and at -50 a
    zoom-out notch, leaves the frame as it is; a zoom-out notch never
    raises the zoom and a zoom-in notch never lowers it, each moving it
    by at most 0.1; and a wheel event that is neither (another button,
    another delta such as 240) leaves a frame whose zoom is within the
    limits exactly as it is. *)
Theorem wheel_limits (ev : event) (f : EarthViewerFrame) :
  -50 <= zoom f <= -1 ->
  (zooms_in ev = true -> zoom f = -1 -> on_mouse_wheel ev f = f)
  /\ (zooms_out ev = true -> zoom f = -50 -> on_mouse_wheel ev f = f)
  /\ (zooms_out ev = true ->
      zoom f - 0.1 <= zoom (on_mouse_wheel ev f) <= zoom f)
  /\ (zooms_in ev = true ->
      zoom f <= zoom (on_mouse_wheel ev f) <= zoom f + 0.1)
  /\ (zooms_out ev = false -> zooms_in ev = false ->
      on_mouse_wheel ev f = f).
Proof.
  intros Hz.
  split; [|split; [|split; [|split]]].
  - intros Hin Hone. apply on_mouse_wheel_fixed.
    rewrite (zoom_after_in ev f Hin), clamp_cases.
    destruct (Rle_dec (zoom f + 0.1) (-1)); lra.
  - intros Hout Hfar. apply on_mouse_wheel_fixed.
    rewrite (zoom_after_out ev f Hout), clamp_cases.
    destruct (Rle_dec (zoom f - 0.1) (-1)); [|lra].
    destruct (Rle_dec (-50) (zoom f - 0.1)); lra.
  - intros Hout. rewrite (zoom_after_out ev f Hout), clamp_cases.
    destruct (Rle_dec (zoom f - 0.1) (-1)); [|lra].
    destruct (Rle_dec (-50) (zoom f - 0.1)); lra.
  - intros Hin. rewrite (zoom_after_in ev f Hin), clamp_cases.
    destruct (Rle_dec (zoom f + 0.1) (-1)); [|lra].
    destruct (Rle_dec (-50) (zoom f + 0.1)); lra.
  - intros Hout Hin. apply on_mouse_wheel_fixed.
    rewrite (zoom_after_other ev f Hout Hin), clamp_cases.
    destruct (Rle_dec (zoom f) (-1)); [|lra].
    destruct (Rle_dec (-50) (zoom f)); lra.
Qed.

Lemma wheel_limits_witness :
  let fast := {| ev_x := 0; ev_y := 0; ev_num := None; ev_delta := 240 |} in
  -50 <= zoom new_frame <= -1 /\ on_mouse_wheel fast new_frame = new_frame.
Proof.
  intros fast.
  assert (Hz : -50 <= zoom new_frame <= -1) by (simpl; lra).
  split; [exact Hz|].
  destruct (wheel_limits fast new_frame Hz) as [_ [_ [_ [_ H]]]].
  apply H; reflexivity.
Defined.

Lemma run_repeat_wheel (n : nat) (ev : event) (f : EarthViewerFrame) :
  wheel_times (S n) ev f = wheel_times n ev (on_mouse_wheel ev f).
Proof. reflexivity. Qed.

(** X24: from a zoom within the limits, n zoom-out notches in a row
    leave the zoom at max(-50, z - 0.1 n) and n zoom-in notches at
    min(-1, z + 0.1 n): each notch counts 0.1 until the limit is
    reached, and none counts after. *)
Theorem wheel_times_zoom (n : nat) (ev : event) (f : EarthViewerFrame) :
  -50 <= zoom f <= -1 ->
  (zooms_out ev = true ->
   zoom (wheel_times n ev f) = Rmax (-50) (zoom f - 0.1 * INR n))
  /\ (zooms_in ev = true ->
      zoom (wheel_times n ev f) = Rmin (-1) (zoom f + 0.1 * INR n)).
Proof.
  revert f. induction n as [|n IH]; intros f Hz.
  - unfold wheel_times, run. simpl.
    split; intros _; [rewrite Rmax_right|rewrite Rmin_right]; lra.
  - pose proof (on_mouse_wheel_in_range ev f) as Hz'.
    destruct (IH (on_mouse_wheel ev f) Hz') as [IHout IHin].
    rewrite run_repeat_wheel, S_INR.
    split.
    + intros Hout. rewrite (IHout Hout), (zoom_after_out ev f Hout), clamp_cases.
      pose proof (pos_INR n) as Hn.
      destruct (Rle_dec (zoom f - 0.1) (-1)); [|lra].
      destruct (Rle_dec (-50) (zoom f - 0.1)).
      * f_equal. lra.
      * rewrite !Rmax_left by lra. reflexivity.
    + intros Hin. rewrite (IHin Hin), (zoom_after_in ev f Hin), clamp_cases.
      pose proof (pos_INR n) as Hn.
      destruct (Rle_dec (zoom f + 0.1) (-1)).
      * destruct (Rle_dec (-50) (zoom f + 0.1)); [|lra]. f_equal. lra.
      * rewrite !Rmin_left by lra. reflexivity.
Qed.

Lemma wheel_times_zoom_witness :
  let out := {| ev_x := 0; ev_y := 0; ev_num := Some 5%Z; ev_delta := 0 |} in
  zoom (wheel_times 420 out new_frame) = -50
  /\ zoom (wheel_times 1000 out new_frame) = -50.
Proof.
  intros out.
  assert (Hz : -50 <= zoom new_frame <= -1) by (simpl; lra).
  destruct (wheel_times_zoom 420 out new_frame Hz) as [H420 _].
  destruct (wheel_times_zoom 1000 out new_frame Hz) as [H1000 _].
  rewrite (H420 eq_refl), (H1000 eq_refl).
  change (zoom new_frame) with (-8).
  rewrite !INR_IZR_INZ. simpl Z.of_nat.
  split; [rewrite Rmax_left by lra|rewrite Rmax_left by lra]; reflexivity.
Defined.

(** ** Frames *)

(** The OpenGL state a redraw leaves, field by field. *)
Lemma redraw_gl_state (f : EarthViewerFrame) (g : gl_state) :
  let prefix :=
    cloud_transform (zoom f) (rotation_angle_x f) (rotation_angle_y f) in
  let sphere :=
    SphereDrawn
      (with_sphere_rotation prefix (sphere_rotation_x f) (sphere_rotation_y f)
         (sphere_rotation_z f))
      2.5 (texture_2d g) in
  redraw_gl f g =
    if has_points f then
      {| modelview := prefix; matrix_stack := matrix_stack g;
         texture_2d := true; vertex_array := false; color_array := false;
         vertex_pointer := points_vbo f; color_pointer := colors_vbo f;
         framebuffer :=
           [sphere;
            PointsDrawn prefix (points_vbo f) (colors_vbo f) (point_count f)
              false] |}
    else
      {| modelview := prefix; matrix_stack := matrix_stack g;
         texture_2d := texture_2d g;
         vertex_array := vertex_array g; color_array := color_array g;
         vertex_pointer := vertex_pointer g; color_pointer := color_pointer g;
         framebuffer := [sphere] |}.
Proof.
  unfold redraw_gl, has_points.
  destruct (points_vbo f) as [pts|]; [destruct (Nat.ltb 0 (point_count f))|];
    reflexivity.
Qed.

(** X25: a redraw starts from a cleared frame and a fresh modelview
    matrix, so what it draws depends on the frame's fields and on
    whether texturing was on, not on what was drawn or left before;
    after drawing a point cloud it has switched the client arrays off
    and texturing back on; with texturing on, redrawing twice gives the
    same OpenGL state as redrawing once. *)
Theorem redraw_gl_fresh (f : EarthViewerFrame) (g : gl_state) :
  (forall g', texture_2d g' = texture_2d g ->
              framebuffer (redraw_gl f g') = framebuffer (redraw_gl f g))
  /\ (has_points f = true ->
      texture_2d (redraw_gl f g) = true
      /\ vertex_array (redraw_gl f g) = false
      /\ color_array (redraw_gl f g) = false)
  /\ (texture_2d g = true -> redraw_gl f (redraw_gl f g) = redraw_gl f g).
Proof.
  split; [|split].
  - intros g' Ht. rewrite !redraw_gl_framebuffer, Ht. reflexivity.
  - intros Hp. rewrite redraw_gl_state, Hp. cbv zeta.
    cbn [texture_2d vertex_array color_array]. repeat split.
  - intros Ht.
    rewrite (redraw_gl_state f (redraw_gl f g)). cbv zeta.
    rewrite (redraw_gl_state f g). cbv zeta.
    destruct (has_points f);
      cbn [matrix_stack texture_2d vertex_array color_array vertex_pointer
           color_pointer];
      rewrite ?Ht; reflexivity.
Qed.

Lemma redraw_gl_fresh_witness :
  redraw_gl new_frame (redraw_gl new_frame initgl) = redraw_gl new_frame initgl.
Proof.
  destruct (redraw_gl_fresh new_frame initgl) as [_ [_ H]].
  apply H. reflexivity.
Defined.

(** X26: whenever construction loads points, there is at least one,
    [point_count] counts them, the cloud will be drawn, and every point
    is at distance 2.5 from the origin, which is the radius of the
    sphere each frame draws: the points lie on the globe's surface. *)
Theorem init_points_on_sphere (csv : option (list csv_row)) (pts : list point3) :
  points_vbo (init csv) = Some pts ->
  pts <> []
  /\ point_count (init csv) = List.length pts
  /\ has_points (init csv) = true
  /\ Forall (fun p => norm3 p = 2.5) pts
  /\ forall g, exists m textured rest,
       framebuffer (redraw_gl (init csv) g) = SphereDrawn m 2.5 textured :: rest.
Proof.
  intros Hpts.
  assert (Hdraw : forall g, exists m textured rest,
             framebuffer (redraw_gl (init csv) g) =
               SphereDrawn m 2.5 textured :: rest).
  { intros g. rewrite redraw_gl_framebuffer. do 3 eexists. reflexivity. }
  revert Hpts Hdraw. unfold init.
  destruct csv as [rows|]; [|discriminate].
  pose proof (generated_points_on_sphere rows 2.5) as Hsphere.
  destruct (generate_points_from_csv rows 2.5) as [points pops].
  cbn [fst] in Hsphere.
  destruct points as [|p points]; [discriminate|].
  set (f := load_points (p :: points) pops new_frame).
  destruct (compute_population_colors_prints pops f) as [lines Hf].
  destruct (compute_population_colors pops f) as [f1 [e|colors]];
    cbn [fst] in Hf; subst f1; cbn; intros Hpts Hdraw;
    injection Hpts as <-;
    (split; [discriminate|]); (split; [reflexivity|]);
    (split; [reflexivity|]); (split; [|exact Hdraw]);
    apply Forall_forall; intros q Hq;
    destruct (Hsphere q Hq) as [_ Hn]; rewrite Hn;
    apply Rabs_pos_eq; lra.
Qed.

Lemma init_points_on_sphere_witness :
  let rows := [{| row_lat := Some 0; row_lon := Some 0; row_pop := 100 |}] in
  points_vbo (init (Some rows)) = Some [project 0 0 2.5]
  /\ norm3 (project 0 0 2.5) = 2.5.
Proof.
  intros rows.
  assert (H : points_vbo (init (Some rows)) = Some [project 0 0 2.5]).
  { unfold init, rows. cbn [generate_points_from_csv row_lat row_lon row_pop].
    destruct (compute_population_colors_prints [100]
                (load_points [project 0 0 2.5] [100] new_frame)) as [lines Hf].
    destruct (compute_population_colors [100]
                (load_points [project 0 0 2.5] [100] new_frame))
      as [f1 [e|colors]]; cbn [fst] in Hf; subst f1; reflexivity. }
  split; [exact H|].
  destruct (init_points_on_sphere (Some rows) _ H) as [_ [_ [_ [Hall _]]]].
  inversion Hall. assumption.
Defined.

(** ** Dependency check *)

Section DependencyProperties.

Variable find_spec : string -> bool.
Variable response : bool.
Variable pip_install : string -> bool.

Lemma missing_packages_none :
  missing_packages find_spec = []
  <-> forall p, In p required_packages -> find_spec (snd p) = true.
Proof.
  unfold missing_packages. split.
  - intros H p Hp.
    destruct (find_spec (snd p)) eqn:E; [reflexivity|].
    assert (Hin : In (fst p) (map fst (filter (fun p => negb (find_spec (snd p)))
                                         required_packages))).
    { apply in_map, filter_In. split; [exact Hp|]. now rewrite E. }
    rewrite H in Hin. destruct Hin.
  - intros H.
    replace (filter (fun p => negb (find_spec (snd p))) required_packages)
      with (@nil (string * string)); [reflexivity|].
    symmetry. induction required_packages as [|p l IH]; [reflexivity|].
    simpl. rewrite (H p (or_introl eq_refl)). simpl.
    apply IH. intros q Hq. apply H. now right.
Qed.

(** X27: the dependency check returns to the program exactly when every
    required package is found, and then it has shown no dialog and run
    no installation; in every other case it ends the process. *)
Theorem check_and_install_dependencies_returns :
  (snd (check_and_install_dependencies find_spec response pip_install)
     = Returned
   <-> forall p, In p required_packages -> find_spec (snd p) = true)
  /\ (snd (check_and_install_dependencies find_spec response pip_install)
        = Returned ->
      fst (check_and_install_dependencies find_spec response pip_install) = []).
Proof.
  rewrite <- missing_packages_none.
  unfold check_and_install_dependencies.
  destruct (missing_packages find_spec) as [|m ms].
  - split; [split; reflexivity|reflexivity].
  - destruct response.
    + destruct (install_loop pip_install (m :: ms)) as [effects [p|]];
        (split; [split; discriminate|discriminate]).
    + split; [split; discriminate|discriminate].
Qed.

Lemma install_loop_outcome (packages : list string) :
  (exists pre p post,
      packages = pre ++ p :: post
      /\ (forall q, In q pre -> pip_install q = true)
      /\ pip_install p = false
      /\ install_loop pip_install packages =
           (map PipInstall pre ++ [PipInstall p; ShowError p], Some p))
  \/ ((forall q, In q packages -> pip_install q = true)
      /\ install_loop pip_install packages = (map PipInstall packages, None)).
Proof.
  induction packages as [|a l IH]; simpl.
  - right. split; [intros q []|reflexivity].
  - destruct (pip_install a) eqn:Ha.
    + destruct IH as [[pre [p [post [-> [Hpre [Hp Hrun]]]]]]|[Hall Hrun]];
        rewrite Hrun.
      * left. exists (a :: pre), p, post. repeat split; try assumption.
        intros q [<-|Hq]; [exact Ha|apply Hpre, Hq].
      * right. split; [|reflexivity].
        intros q [<-|Hq]; [exact Ha|apply Hall, Hq].
    + left. exists [], a, l. repeat split; [intros q []|exact Ha].
Qed.

(** X28: the dependency check installs nothing without consent and
    nothing that is present: every package it runs pip for is missing
    and was agreed to in the dialog.  Having consent, it installs the
    missing packages in the order of the table and stops at the first
    failure, with an error dialog naming that package; when all succeed
    it asks for a restart; refused, it warns and exits. *)
Theorem check_and_install_dependencies_installs :
  let missing := missing_packages find_spec in
  let effects :=
    fst (check_and_install_dependencies find_spec response pip_install) in
  let outcome :=
    snd (check_and_install_dependencies find_spec response pip_install) in
  (forall package,
      In (PipInstall package) effects ->
      response = true /\ In package missing)
  /\ (forall p,
        outcome = ExitInstallFailed p ->
        exists pre post,
          missing = pre ++ p :: post
          /\ (forall q, In q pre -> pip_install q = true)
          /\ pip_install p = false
          /\ effects = AskYesNo missing
                       :: map PipInstall pre ++ [PipInstall p; ShowError p])
  /\ (outcome = ExitRestart ->
      (forall q, In q missing -> pip_install q = true)
      /\ effects = AskYesNo missing :: map PipInstall missing ++ [ShowInfo])
  /\ (outcome = ExitAborted ->
      response = false /\ effects = [AskYesNo missing; ShowWarning]).
Proof.
  intros missing effects outcome.
  unfold effects, outcome, check_and_install_dependencies. fold missing.
  destruct missing as [|m ms] eqn:Hm.
  - cbn. split; [intros package []|].
    split; [discriminate|]. split; discriminate.
  - destruct response.
    + destruct (install_loop_outcome (m :: ms))
        as [[pre [p [post [Hsplit [Hpre [Hp Hrun]]]]]]|[Hall Hrun]];
        rewrite Hrun; cbn [fst snd].
      * split; [|split; [|split]]; try discriminate.
        -- intros package [Hin|Hin]; [discriminate|].
           split; [reflexivity|]. rewrite Hsplit.
           apply in_app_or in Hin. destruct Hin as [Hin|[Hin|[Hin|[]]]];
             try discriminate.
           ++ apply in_map_iff in Hin. destruct Hin as [q [E Hq]].
              injection E as ->. apply in_or_app. now left.
           ++ injection Hin as <-. apply in_or_app. right. now left.
        -- intros p' E. injection E as <-. exists pre, post.
           repeat split; assumption.
      * split; [|split; [|split]]; try discriminate.
        -- intros package [Hin|Hin]; [discriminate|].
           split; [reflexivity|].
           apply in_app_or in Hin. destruct Hin as [Hin|[Hin|[]]];
             [|discriminate].
           apply in_map_iff in Hin. destruct Hin as [q [E Hq]].
           injection E as ->. exact Hq.
        -- intros _. split; [exact Hall|reflexivity].
    + cbn [fst snd]. split; [|split; [|split]]; try discriminate.
      * intros package [Hin|[Hin|[]]]; discriminate.
      * intros _. split; reflexivity.
Qed.

End DependencyProperties.

Lemma check_and_install_dependencies_installs_witness :
  let find_spec (name : string) := negb (String.eqb name "scipy") in
  check_and_install_dependencies find_spec true (fun _ => false) =
    ([AskYesNo ["scipy"%string]; PipInstall "scipy"; ShowError "scipy"],
     ExitInstallFailed "scipy").
Proof.
  intros find_spec.
  destruct (check_and_install_dependencies_installs find_spec true
              (fun _ => false)) as [_ [Hfail _]].
  destruct (Hfail "scipy"%string eq_refl) as [pre [post [_ [_ [_ Heff]]]]].
  reflexivity.
Defined.

Lemma check_and_install_dependencies_returns_witness :
  check_and_install_dependencies (fun _ => true) false (fun _ => false) =
    ([], Returned).
Proof.
  destruct (check_and_install_dependencies_returns
              (fun _ => true) false (fun _ => false)) as [[_ Hret] Hquiet].
  assert (H : snd (check_and_install_dependencies
                     (fun _ => true) false (fun _ => false)) = Returned)
    by (apply Hret; reflexivity).
  specialize (Hquiet H).
  destruct (check_and_install_dependencies
              (fun _ => true) false (fun _ => false)) as [effects outcome].
  cbn [fst snd] in H, Hquiet. subst. reflexivity.
Defined.

(** * The normaliser on every input *)

Lemma np_minimum_fin (a b : R) : np_minimum (Fin a) (Fin b) = Fin (Rmin a b).
Proof.
  unfold np_minimum, np_less, Rmin.
  destruct (Rltb b a) eqn:E; destruct (Rle_dec a b) as [H|H];
    try reflexivity.
  - apply Rltb_true in E. lra.
  - apply Rltb_false in E. lra.
Qed.

Lemma np_maximum_fin (a b : R) : np_maximum (Fin a) (Fin b) = Fin (Rmax a b).
Proof.
  unfold np_maximum, np_less, Rmax.
  destruct (Rltb a b) eqn:E; destruct (Rle_dec a b) as [H|H];
    try reflexivity.
  - apply Rltb_true in E. lra.
  - apply Rltb_false in E. f_equal. lra.
Qed.

Lemma fold_np_minimum_fin (l : list R) (a : R) :
  fold_left np_minimum (map Fin l) (Fin a) = Fin (fold_left Rmin l a).
Proof.
  revert a. induction l as [|b l IH]; intros a; cbn [map fold_left];
    [reflexivity|].
  rewrite np_minimum_fin. apply IH.
Qed.

Lemma fold_np_maximum_fin (l : list R) (a : R) :
  fold_left np_maximum (map Fin l) (Fin a) = Fin (fold_left Rmax l a).
Proof.
  revert a. induction l as [|b l IH]; intros a; cbn [map fold_left];
    [reflexivity|].
  rewrite np_maximum_fin. apply IH.
Qed.

Lemma np_pop_values_no_pos_inf (use_logarithmic : bool) (populations : list R) :
  Forall no_pos_inf (np_pop_values use_logarithmic populations).
Proof.
  unfold np_pop_values, no_pos_inf.
  destruct use_logarithmic; apply Forall_forall; intros t Ht;
    apply in_map_iff in Ht; destruct Ht as [p [<- _]]; [|discriminate].
  unfold np_log1p. destruct (Rltb (-1) p); [discriminate|].
  destruct (Reqb p (-1)); discriminate.
Qed.

(** The elements that pass the mask are the positive finite ones. *)
Lemma valid_pops_finite (values : list fval) :
  Forall no_pos_inf values ->
  filter np_positive values = map Fin (finite_positives values).
Proof.
  unfold finite_positives.
  induction 1 as [|t values Ht _ IH]; [reflexivity|].
  destruct t as [x| | |];
    cbn [filter finite_values np_positive np_less map].
  - unfold positive at 1. destruct (Rltb 0 x); cbn [map]; now rewrite IH.
  - now contradiction Ht.
  - exact IH.
  - exact IH.
Qed.

Lemma scaled_step (min_pop max_pop : R) (t : fval) :
  min_pop < max_pop ->
  (q <- np_divide (np_subtract t (Fin min_pop))
                  (np_subtract (Fin max_pop) (Fin min_pop)) ;;
   ok (np_maximum (Fin 0) q)) = ok (scaled min_pop max_pop t).
Proof.
  intros Hlt. cbn [np_subtract]. unfold np_divide.
  assert (Hd : Reqb (max_pop - min_pop) 0 = false)
    by (apply Reqb_false; lra).
  assert (Hp : Rltb 0 (max_pop - min_pop) = true) by (apply Rltb_true; lra).
  destruct t as [x| | |]; cbn [np_subtract]; rewrite Hd; try rewrite Hp;
    cbn [bind ok scaled]; try reflexivity.
  rewrite np_maximum_fin. reflexivity.
Qed.

(** The three branches of the normalisation on an array without
    +inf. *)
Lemma np_normalize_values_cases (values : list fval) :
  Forall no_pos_inf values ->
  (finite_positives values = []
   /\ np_normalize_values values = ok (np_zeros_like values))
  \/ exists min_pop max_pop,
       is_min (finite_positives values) min_pop
       /\ is_max (finite_positives values) max_pop
       /\ ((min_pop = max_pop
            /\ np_normalize_values values = ok (np_zeros_like values))
           \/ (min_pop < max_pop
               /\ np_normalize_values values =
                    ok (map (scaled min_pop max_pop) values))).
Proof.
  intros Hvalues. unfold np_normalize_values.
  rewrite (valid_pops_finite values Hvalues).
  destruct (finite_positives values) as [|v vs] eqn:Hvalid.
  - left. split; reflexivity.
  - right.
    assert (Hne : v :: vs <> []) by discriminate.
    destruct (amin_is_min _ Hne) as [mn [Hmn Hmin]].
    destruct (amax_is_max _ Hne) as [mx [Hmx Hmax]].
    exists mn, mx. split; [exact Hmin|]. split; [exact Hmax|].
    cbn [map List.length Nat.eqb np_amin np_amax].
    rewrite fold_np_minimum_fin, fold_np_maximum_fin.
    cbn in Hmn, Hmx. injection Hmn as Hmn. injection Hmx as Hmx.
    rewrite Hmn, Hmx. cbn [bind ok].
    assert (Hle : mn <= mx) by (apply Hmax, Hmin).
    cbn [np_less].
    destruct (Rltb mn mx) eqn:Hlt.
    + apply Rltb_true in Hlt. right. split; [exact Hlt|].
      apply mapM_ok. intros t _. apply scaled_step, Hlt.
    + apply Rltb_false in Hlt. left. split; [lra|reflexivity].
Qed.

Lemma finite_values_members (values : list fval) (x : R) :
  In x (finite_values values) <-> In (Fin x) values.
Proof.
  induction values as [|t values IH]; simpl; [reflexivity|].
  destruct t as [y| | |]; simpl; rewrite IH; split; intros Hin.
  - destruct Hin as [->|Hin]; [now left|now right].
  - destruct Hin as [E|Hin]; [left; now injection E|now right].
  - now right.
  - destruct Hin as [E|Hin]; [discriminate|exact Hin].
  - now right.
  - destruct Hin as [E|Hin]; [discriminate|exact Hin].
  - now right.
  - destruct Hin as [E|Hin]; [discriminate|exact Hin].
Qed.

Lemma finite_positives_members (values : list fval) (x : R) :
  In x (finite_positives values) <-> In (Fin x) values /\ 0 < x.
Proof.
  unfold finite_positives.
  rewrite filter_In, positive_true, finite_values_members. reflexivity.
Qed.

Lemma np_log1p_cases (p : R) :
  (-1 < p /\ np_log1p p = Fin (ln (1 + p)))
  \/ (p = -1 /\ np_log1p p = NegInf)
  \/ (p < -1 /\ np_log1p p = NaN).
Proof.
  unfold np_log1p.
  destruct (Rltb (-1) p) eqn:E.
  - apply Rltb_true in E. now left.
  - apply Rltb_false in E.
    destruct (Reqb p (-1)) eqn:E'.
    + apply Reqb_true in E'. right. now left.
    + apply Reqb_false in E'. right. right. split; [lra|reflexivity].
Qed.





Lemma np_pop_values_length (use_logarithmic : bool) (populations : list R) :
  List.length (np_pop_values use_logarithmic populations) =
    List.length populations.
Proof. unfold np_pop_values. destruct use_logarithmic; apply length_map. Qed.

Lemma np_no_positive_among_zeros (use_logarithmic : bool)
  (populations : list R) :
  Forall (fun p => p = 0) populations ->
  finite_positives (np_pop_values use_logarithmic populations) = [].
Proof.
  intros Hz. unfold finite_positives, np_pop_values.
  induction Hz as [|p l Hp _ IH]; [destruct use_logarithmic; reflexivity|].
  subst p. destruct use_logarithmic; cbn [map].
  - destruct (np_log1p_cases 0) as [[_ E]|[[H _]|[H _]]]; try lra.
    rewrite E. cbn [finite_values filter].
    replace (1 + 0) with 1 by lra. rewrite ln_1.
    replace (positive 0) with false; [exact IH|].
    symmetry. apply Rltb_false. lra.
  - cbn [finite_values filter].
    replace (positive 0) with false; [exact IH|].
    symmetry. apply Rltb_false. lra.
Qed.







Lemma np_divide_ok (a lo hi : fval) :
  np_less lo hi = true ->
  exists q, np_divide a (np_subtract hi lo) = ok q.
Proof.
  intros Hlt. unfold np_divide.
  destruct lo as [x| | |], hi as [y| | |]; cbn in Hlt; try discriminate;
    cbn [np_subtract]; try (eexists; reflexivity).
  apply Rltb_true in Hlt.
  replace (Reqb (y - x) 0) with false
    by (symmetry; apply Reqb_false; lra).
  eexists. reflexivity.
Qed.

Lemma mapM_total {A B : Type} (f : A -> result B) (l : list A) :
  (forall a, exists b, f a = ok b) ->
  exists out, mapM f l = ok out /\ List.length out = List.length l.
Proof.
  intros Hf. induction l as [|a l [out [IH Hlen]]]; simpl.
  - exists []. split; reflexivity.
  - destruct (Hf a) as [b Hb]. rewrite Hb, IH. simpl.
    exists (b :: out). split; [reflexivity|]. simpl. now rewrite Hlen.
Qed.

(** On every array, the infinities and nan included, the normalisation
    returns: the minimum and maximum are taken of an array that is not
    empty, and the divisor is not zero. *)
Lemma np_normalize_values_total (values : list fval) :
  exists out,
    np_normalize_values values = ok out
    /\ List.length out = List.length values.
Proof.
  unfold np_normalize_values.
  destruct (filter np_positive values) as [|v vs].
  - eexists. split; [reflexivity|]. unfold np_zeros_like. apply length_map.
  - cbn [List.length Nat.eqb np_amin np_amax bind ok].
    destruct (np_less (fold_left np_minimum vs v) (fold_left np_maximum vs v))
      eqn:Hlt.
    + apply mapM_total. intros t.
      destruct (np_divide_ok (np_subtract t (fold_left np_minimum vs v))
                  _ _ Hlt) as [q Hq].
      rewrite Hq. eexists. reflexivity.
    + eexists. split; [reflexivity|]. unfold np_zeros_like. apply length_map.
Qed.

(** C5: the normaliser returns a result for every input population
    sequence, with or without logarithmic scaling, populations at or
    below -1 included; indeed the normalisation returns on every array
    of scaled values, whatever infinities or nan it holds: the minimum
    and the maximum are taken only of a non-empty array, and the branch
    that divides is entered only with max > min, so that the divisor
    max - min is never zero.  An all-zero population set gives all
    zeros. *)
Theorem np_normalized_pops_total (use_logarithmic : bool)
  (populations : list R) :
  (exists out,
      np_normalized_pops use_logarithmic populations = ok out
      /\ List.length out = List.length populations)
  /\ (forall values,
        exists out,
          np_normalize_values values = ok out
          /\ List.length out = List.length values)
  /\ (Forall (fun p => p = 0) populations ->
      np_normalized_pops use_logarithmic populations =
        ok (map (fun _ => Fin 0) populations)).
Proof.
  split; [|split].
  - unfold np_normalized_pops.
    destruct (np_normalize_values_total
                (np_pop_values use_logarithmic populations))
      as [out [Hout Hlen]].
    exists out. split; [exact Hout|].
    rewrite Hlen. apply np_pop_values_length.
  - exact np_normalize_values_total.
  - intros Hz. unfold np_normalized_pops.
    pose proof (np_pop_values_no_pos_inf use_logarithmic populations) as Hinf.
    pose proof (np_no_positive_among_zeros use_logarithmic populations Hz)
      as Hnone.
    destruct (np_normalize_values_cases _ Hinf)
      as [[_ Hout]|[mn [_ [Hmin _]]]].
    + rewrite Hout. f_equal. unfold np_zeros_like, np_pop_values.
      destruct use_logarithmic; apply map_map.
    + rewrite Hnone in Hmin. destruct Hmin as [[] _].
Qed.

Lemma np_normalized_pops_total_witness :
  Forall (fun p => p = 0) [0; 0; 0]
  /\ np_normalized_pops true [0; 0; 0] = ok [Fin 0; Fin 0; Fin 0]
  /\ exists out, np_normalized_pops true [-1; 5; 10] = ok out.
Proof.
  assert (Hz : Forall (fun p => p = 0) [0; 0; 0]) by (repeat constructor).
  destruct (np_normalized_pops_total true [0; 0; 0]) as [_ [_ Hzero]].
  destruct (np_normalized_pops_total true [-1; 5; 10])
    as [[out [Hout _]] _].
  split; [exact Hz|]. split; [exact (Hzero Hz)|].
  exists out. exact Hout.
Defined.

(** Where the scaling is defined, that is whenever [normalized_pops]
    returns, the two renderings of the normaliser agree. *)
Lemma normalized_pops_agree (use_logarithmic : bool)
  (populations out : list R) :
  normalized_pops use_logarithmic populations = ok out ->
  np_normalized_pops use_logarithmic populations = ok (map Fin out).
Proof.
  unfold normalized_pops, np_normalized_pops.
  destruct (pop_values use_logarithmic populations) as [e|values] eqn:Hpv;
    [discriminate|].
  simpl bind. intros Hout.
  assert (Hvalues : np_pop_values use_logarithmic populations = map Fin values).
  { revert Hpv. unfold pop_values, np_pop_values.
    destruct use_logarithmic.
    - destruct (mapM_log1p_cases populations) as [[Hall E]|[_ E]];
        rewrite E; [|discriminate].
      intros H. injection H as <-. rewrite map_map.
      apply map_ext_in. intros p Hp.
      rewrite Forall_forall in Hall. specialize (Hall p Hp).
      destruct (np_log1p_cases p) as [[_ E']|[[H _]|[H _]]];
        [exact E'|lra|lra].
    - intros H. injection H as <-. reflexivity. }
  rewrite Hvalues.
  assert (Hfv : finite_values (map Fin values) = values)
    by (clear; induction values as [|t l IH]; simpl; [|rewrite IH];
        reflexivity).
  assert (Hinf : Forall no_pos_inf (map Fin values)).
  { apply Forall_forall. intros t Ht. apply in_map_iff in Ht.
    destruct Ht as [x [<- _]]. discriminate. }
  assert (Hfp : finite_positives (map Fin values) = filter positive values)
    by (unfold finite_positives; now rewrite Hfv).
  destruct (np_normalize_values_cases _ Hinf)
    as [[Hnone Hx]|[mn [mx [Hmin [Hmax Hx]]]]]; rewrite Hfp in *.
  - rewrite (normalize_values_none values Hnone) in Hout.
    injection Hout as <-. rewrite Hx.
    unfold np_zeros_like, zeros_like. now rewrite !map_map.
  - rewrite (normalize_values_by_range values mn mx Hmin Hmax) in Hout.
    injection Hout as <-.
    destruct Hx as [[Heq Hx]|[Hlt Hx]]; rewrite Hx.
    + replace (Rltb mn mx) with false
        by (symmetry; apply Rltb_false; lra).
      unfold np_zeros_like, zeros_like. now rewrite !map_map.
    + replace (Rltb mn mx) with true
        by (symmetry; apply Rltb_true; exact Hlt).
      now rewrite !map_map.
Qed.
